(** * Provisioning of the single-node k8s host: a shallow embedding

    The Go program drives external commands through machines of the
    [lesiw.io/command] library.  Every effect of the program (one command
    invocation, one file write, one assignment to [command.Trace], one line
    printed) is an entry of the event log of a [World]; what the outside
    answers is an oracle [Env] that may depend on the whole history. *)

From Stdlib Require Import NArith Ascii String.
From stdpp Require Import base strings list gmap countable.

Local Open Scope string_scope.

(** ** Errors *)

(** Go [error] values: the three classifications of a failed invocation and
    the wrapping done by [fmt.Errorf("<msg>: %w", cause)]. *)
Inductive error :=
| ErrNotFound (cmd : string)
| ErrExit (code : N)
| ErrIO (msg : string)
| Errorf (msg : string) (cause : error).

(** A Go result pair [(T, error)]. *)
Inductive result (A : Type) :=
| Ok (a : A)
| Err (e : error).
Arguments Ok {A} a.
Arguments Err {A} e.

(** [err.Error()]. *)
Fixpoint error_string (e : error) : string :=
  match e with
  | ErrNotFound cmd => "command not found: " +:+ cmd
  | ErrExit _ => "exit status"
  | ErrIO msg => msg
  | Errorf msg cause => msg +:+ ": " +:+ error_string cause
  end.

(** [command.NotFound(err)]: the classification is looked for along the
    chain of wrapped causes; a nil error is not a not-found. *)
Fixpoint is_not_found (e : error) : bool :=
  match e with
  | ErrNotFound _ => true
  | Errorf _ cause => is_not_found cause
  | _ => false
  end.

Definition NotFound (err : option error) : bool :=
  match err with
  | Some e => is_not_found e
  | None => false
  end.

(** ** Machines *)

(** [Base] is a machine that executes by itself ([sys.Machine()], a mock);
    [Sub inner prefix] is [sub.Machine(inner, prefix...)]; [Shell inner
    handled] is [command.Shell(inner)] after [Handle(name, Unshell())] for
    every name of [handled]. *)
Inductive Machine :=
| Base (name : string)
| Sub (inner : Machine) (prefix : list string)
| Shell (inner : Machine) (handled : list string).

Global Instance Machine_eq_dec : EqDecision Machine.
Proof. solve_decision. Defined.

Fixpoint Machine_enc (m : Machine) : gen_tree (string + list string) :=
  match m with
  | Base n => GenLeaf (inl n)
  | Sub i p => GenNode 0 [GenLeaf (inr p); Machine_enc i]
  | Shell i h => GenNode 1 [GenLeaf (inr h); Machine_enc i]
  end.

Fixpoint Machine_dec (t : gen_tree (string + list string)) : Machine :=
  match t with
  | GenLeaf (inl n) => Base n
  | GenNode 0 [GenLeaf (inr p); t'] => Sub (Machine_dec t') p
  | GenNode 1 [GenLeaf (inr h); t'] => Shell (Machine_dec t') h
  | _ => Base ""
  end.

Global Instance Machine_countable : Countable Machine.
Proof.
  refine (inj_countable' Machine_enc Machine_dec _).
  induction x; simpl; congruence.
Defined.

(** [sh.Handle(name, sh.Unshell())]. *)
Definition Handle (sh : Machine) (name : string) : Machine :=
  match sh with
  | Shell inner handled => Shell inner (handled ++ [name])
  | _ => sh
  end.

(** The argument vector the innermost machine observes for an invocation
    issued on [m]: every delegation layer puts its prefix in front. *)
Fixpoint delegated (m : Machine) (args : list string) : string * list string :=
  match m with
  | Base n => (n, args)
  | Sub inner prefix => delegated inner (prefix ++ args)
  | Shell inner _ => delegated inner args
  end.

(** ** The world *)

(** [command.Trace] is an [io.Writer]. *)
Inductive Writer :=
| Discard
| ShTrace
| OtherWriter (id : nat).

Global Instance Writer_eq_dec : EqDecision Writer.
Proof. solve_decision. Defined.

Definition FileMode := N.

Definition oct (a b c : N) : FileMode := (a * 64 + b * 8 + c)%N.

(** [Mode().Perm()]. *)
Definition Perm (m : FileMode) : FileMode := N.land m (oct 7 7 7).

Definition defaultMode : FileMode := oct 6 4 4.

Record File := mkFile { content : string; mode : FileMode }.

(** What the program asks of the outside. *)
Inductive Op :=
| OpInvoke (m : Machine) (args : list string) (stdin : string)
| OpWriteFile (m : Machine) (path : string) (data : string) (perm : FileMode)
| OpCreateTemp (dir pattern : string)
| OpChmod (name : string) (perm : FileMode)
| OpWriteString (name : string) (s : string)
| OpClose (name : string)
| OpRemove (name : string).

Inductive Stream := Stdout | Stderr.

(** One entry of the log.  [EvOp] keeps the value of [command.Trace] at the
    moment of the operation and what the outside answered; [EvOnce] marks
    one execution of the function wrapped by a [sync.OnceValues]. *)
Inductive Getter := GSpkez | GK8s | GCtl.

Global Instance Getter_eq_dec : EqDecision Getter.
Proof. solve_decision. Defined.

Inductive Event :=
| EvOp (op : Op) (tr : Writer) (res : result string)
| EvSetTrace (w : Writer)
| EvPrint (s : Stream) (line : string)
| EvOnce (g : Getter).

(** Closures handed to [defers.Add]. *)
Inductive Deferred :=
| RemoveFile (name : string).

(** Package-level variables of the first generation of the program (the
    [runinit] bootstrap). *)
Record Globals := mkGlobals {
  rnr : option Machine;
  sshkey : string;
  k8s : option Machine;
  ctl : option Machine
}.

Record World := mkWorld {
  events : list Event;
  Trace : Writer;
  files : gmap (Machine * string) File;
  deferred : list Deferred;
  spkezOnce : option (result Machine);
  k8sOnce : option (result Machine);
  ctlOnce : option (result Machine);
  globals : Globals
}.

(** The outside: the answer to an operation, given everything that happened
    before it. *)
Definition Env := list Event -> Op -> result string.

(** ** The monad of the program *)

Definition M (A : Type) := World -> A * World.

Definition ret {A} (a : A) : M A := fun w => (a, w).

Definition bind {A B} (m : M A) (k : A -> M B) : M B :=
  fun w => let (a, w') := m w in k a w'.

Notation "x <- c1 ;; c2" := (bind c1 (fun x => c2))
  (at level 100, c1 at next level, right associativity).
Notation "c1 ;;; c2" := (bind c1 (fun _ => c2))
  (at level 100, right associativity).

Definition log (e : Event) : M unit :=
  fun w => (tt, mkWorld (events w ++ [e]) (Trace w) (files w) (deferred w)
                        (spkezOnce w) (k8sOnce w) (ctlOnce w) (globals w)).

Definition getTrace : M Writer := fun w => (Trace w, w).

(** [command.Trace = t]. *)
Definition setTrace (t : Writer) : M unit :=
  fun w => (tt, mkWorld (events w ++ [EvSetTrace t]) t (files w) (deferred w)
                        (spkezOnce w) (k8sOnce w) (ctlOnce w) (globals w)).

Definition putFile (m : Machine) (path : string) (f : File) : M unit :=
  fun w => (tt, mkWorld (events w) (Trace w) (<[(m, path) := f]> (files w))
                        (deferred w)
                        (spkezOnce w) (k8sOnce w) (ctlOnce w) (globals w)).

(** [defers.Add(f)]. *)
Definition defers_Add (d : Deferred) : M unit :=
  fun w => (tt, mkWorld (events w) (Trace w) (files w) (d :: deferred w)
                        (spkezOnce w) (k8sOnce w) (ctlOnce w) (globals w)).

Definition clearDeferred : M (list Deferred) :=
  fun w => (deferred w,
            mkWorld (events w) (Trace w) (files w) []
                    (spkezOnce w) (k8sOnce w) (ctlOnce w) (globals w)).

Definition onceCell (g : Getter) (w : World) : option (result Machine) :=
  match g with
  | GSpkez => spkezOnce w
  | GK8s => k8sOnce w
  | GCtl => ctlOnce w
  end.

Definition setOnce (g : Getter) (r : result Machine) : M unit :=
  fun w =>
    (tt,
     match g with
     | GSpkez => mkWorld (events w) (Trace w) (files w) (deferred w)
                         (Some r) (k8sOnce w) (ctlOnce w) (globals w)
     | GK8s => mkWorld (events w) (Trace w) (files w) (deferred w)
                       (spkezOnce w) (Some r) (ctlOnce w) (globals w)
     | GCtl => mkWorld (events w) (Trace w) (files w) (deferred w)
                       (spkezOnce w) (k8sOnce w) (Some r) (globals w)
     end).

Definition setGlobals (f : Globals -> Globals) : M unit :=
  fun w => (tt, mkWorld (events w) (Trace w) (files w) (deferred w)
                        (spkezOnce w) (k8sOnce w) (ctlOnce w)
                        (f (globals w))).

(** ** Strings *)

Definition newline : Ascii.ascii := Ascii.ascii_of_nat 10.

(** Modelled from the spec: the output a [Call] (or the older [Get]) hands
    back is the captured standard output without its trailing newline
    characters. *)
Fixpoint trimNewline (s : string) : string :=
  match s with
  | EmptyString => EmptyString
  | String c rest =>
      match trimNewline rest with
      | EmptyString => if Ascii.eqb c newline then EmptyString
                       else String c EmptyString
      | rest' => String c rest'
      end
  end.

(** The arguments left over when the format is exhausted:
    [%!(EXTRA string=a, string=b)]. *)
Fixpoint extraArgs (args : list string) : string :=
  match args with
  | [] => ""
  | [a] => "string=" +:+ a
  | a :: rest => "string=" +:+ a +:+ ", " +:+ extraArgs rest
  end.

(** [fmt.Sprintf] on string operands, for the verbs the formats of this
    program use: [%s] takes the next operand as it is, [%%] is a percent
    sign; any other character is copied. *)
Fixpoint Sprintf (format : string) (args : list string) : string :=
  match format with
  | EmptyString =>
      match args with
      | [] => ""
      | _ => "%!(EXTRA " +:+ extraArgs args +:+ ")"
      end
  | String "%"%char (String "s"%char rest) =>
      match args with
      | a :: args' => a +:+ Sprintf rest args'
      | [] => "%!s(MISSING)" +:+ Sprintf rest []
      end
  | String "%"%char (String "%"%char rest) =>
      String "%"%char (Sprintf rest args)
  | String c rest => String c (Sprintf rest args)
  end.

(** [strings.Contains(s, sub)]. *)
Fixpoint Contains (s sub : string) : bool :=
  String.prefix sub s ||
  match s with
  | EmptyString => false
  | String _ rest => Contains rest sub
  end.

(** ** Constants of the program *)

Definition host : string := "k8s.lesiw.dev".

Definition autopatchCron : string :=
  "0 2 * * 6 root /usr/local/bin/autopatch >> " +:+
  "/var/log/autopatch.log 2>&1
".

(** The embedded file [autopatch.sh]. *)
Definition autopatch : string :=
"#!/bin/sh

set -e

DEBIAN_FRONTEND=noninteractive
PATH=/usr/local/sbin:/usr/local/bin:/usr/sbin:/usr/bin:/sbin:/bin

apt-get update

apt-get \
  -o Dpkg::Options::=--force-confold \
  -o Dpkg::Options::=--force-confdef \
  -y dist-upgrade

apt-get autoremove -y

shutdown -r 0
".

Definition secretCfg : string :=
"apiVersion: v1
kind: Secret
metadata:
  name: %s
type: Opaque
stringData:
  %s: %s".

Definition basicAuthCfg : string :=
"apiVersion: v1
kind: Secret
metadata:
  name: %s
type: kubernetes.io/basic-auth
stringData:
  username: %s
  password: %s".

Definition certManagerURL : string :=
  "https://github.com/cert-manager/cert-manager/" +:+
  "releases/download/v1.17.1/cert-manager.yaml".

Definition cnpgURL : string :=
  "https://raw.githubusercontent.com/cloudnative-pg/cloudnative-pg/" +:+
  "release-1.25/releases/cnpg-1.25.0.yaml".

(** The embedded manifests [traefik.yml], [cluster.yml], [issuer.yml] and
    [registry.yml]: opaque texts. *)
Record Manifests := mkManifests {
  traefikConfig : string;
  postgresClusterCfg : string;
  issuerCfg : string;
  registryCfg : string
}.

(** ** The command library, as the program uses it *)

(** A [context.Context] carries at most a file-mode override
    ([fs.WithFileMode]). *)
Definition Context := option FileMode.
Definition Background : Context := None.
Definition WithFileMode (ctx : Context) (perm : FileMode) : Context :=
  Some perm.

(** [m.Command(ctx, args...)]: an invocation not yet started. *)
Record Cmd := Command { cmd_on : Machine; cmd_args : list string }.

(** What [command.Copy] reads from. *)
Inductive Reader :=
| FromCommand (c : Cmd)
| NewReader (s : string).

Definition errOf {A} (r : result A) : option error :=
  match r with
  | Ok _ => None
  | Err e => Some e
  end.

Section Program.

Variable env : Env.
Variable cfg : Manifests.

(** One operation: the outside answers, the log grows by one entry. *)
Definition perform (op : Op) : M (result string) :=
  fun w => let r := env (events w) op in
           (r, snd (log (EvOp op (Trace w) r) w)).

(** [fmt.Println], [fmt.Fprintln(os.Stderr, ...)]. *)
Definition Println (line : string) : M unit := log (EvPrint Stdout line).
Definition Eprintln (line : string) : M unit := log (EvPrint Stderr line).

(** Modelled from the spec: [call(...)] gives the standard output trimmed
    of its trailing newline. *)
Definition Call (ctx : Context) (m : Machine) (args : list string)
  : M (result string) :=
  r <- perform (OpInvoke m args "");;
  ret (match r with
       | Ok out => Ok (trimNewline out)
       | Err e => Err e
       end).

(** Modelled from the spec: [exec(...)] discards the output and still
    surfaces the failure. *)
Definition Exec (ctx : Context) (m : Machine) (args : list string)
  : M (option error) :=
  r <- perform (OpInvoke m args "");;
  ret (errOf r).

(** Modelled from the spec: [command.Copy(dst, src)] feeds what [src]
    produces to the standard input of [dst]; both sides are run, and the
    failure of either side fails the copy (the producer's first).  The
    count is the number of bytes handed over. *)
Definition Copy (dst : Cmd) (src : Reader) : M (N * option error) :=
  match src with
  | NewReader s =>
      r <- perform (OpInvoke (cmd_on dst) (cmd_args dst) s);;
      ret (N.of_nat (String.length s), errOf r)
  | FromCommand c =>
      p <- perform (OpInvoke (cmd_on c) (cmd_args c) "");;
      let data := match p with Ok out => out | Err _ => "" end in
      r <- perform (OpInvoke (cmd_on dst) (cmd_args dst) data);;
      ret (N.of_nat (String.length data),
           match p with
           | Err e => Some e
           | Ok _ => errOf r
           end)
  end.

(** Modelled from the spec: [writeFile(path, bytes, options)] with the
    file-mode override of the context, the default mode otherwise.  A
    write the machine accepts leaves the file with exactly these bytes
    and this mode. *)
Definition WriteFile (ctx : Context) (m : Machine) (path data : string)
  : M (option error) :=
  let perm := default defaultMode ctx in
  r <- perform (OpWriteFile m path data perm);;
  match r with
  | Ok _ => putFile m path (mkFile data perm);;; ret None
  | Err e => ret (Some e)
  end.

(** Modelled from the spec: [sync.OnceValues(f)], the once-only primitive
    that caches the produced value or the produced error.  The first call
    runs [f] and stores what it returned; every call returns the stored
    pair. *)
Definition OnceValues (g : Getter) (f : M (result Machine))
  : M (result Machine) :=
  fun w =>
    match onceCell g w with
    | Some r => (r, w)
    | None => (log (EvOnce g);;; r <- f;; setOnce g r;;; ret r) w
    end.

(** ** Memoized machines *)

Definition sysMachine : Machine := Base "sys".

(** The function literal of [getSpkez]. *)
Definition spkezSetup : M (result Machine) :=
  let ctx := Background in
  let sh := Shell sysMachine [] in
  let sh := Handle sh "go" in
  let sh := Handle sh "spkez" in
  r <- Call ctx sh ["spkez"; "--version"];;
  let err := errOf r in
  if NotFound err then
    Println "Installing spkez...";;;
    err <- Exec ctx sh ["go"; "install"; "lesiw.io/spkez@latest"];;
    match err with
    | Some e => ret (Err (Errorf "could not install spkez" e))
    | None => ret (Ok (Sub sh ["spkez"]))
    end
  else
    match err with
    | Some e => ret (Err (Errorf "error checking spkez" e))
    | None => ret (Ok (Sub sh ["spkez"]))
    end.

Definition getSpkez : M (result Machine) := OnceValues GSpkez spkezSetup.

(** The function literal of [getK8s], over the getter it calls. *)
Definition k8sSetup (getSpkez : M (result Machine)) : M (result Machine) :=
  let ctx := Background in
  let sh := Shell sysMachine [] in
  let sh := Handle sh "ssh" in
  r <- getSpkez;;
  match r with
  | Err e => ret (Err e)
  | Ok spkez =>
      r <- Call ctx spkez ["get"; "infra/ssh"];;
      match r with
      | Err e => ret (Err (Errorf "could not get ssh key" e))
      | Ok sshkey =>
          r <- perform (OpCreateTemp "" "sshkey");;
          match r with
          | Err e => ret (Err (Errorf "could not create temp file" e))
          | Ok file =>
              defers_Add (RemoveFile file);;;
              res <- (r <- perform (OpChmod file (oct 6 0 0));;
                      match r with
                      | Err e =>
                          ret (Err (Errorf
                            "could not set permissions on temp file" e))
                      | Ok _ =>
                          r <- perform
                                 (OpWriteString file
                                    (sshkey +:+ String newline ""));;
                          match r with
                          | Err e =>
                              ret (Err (Errorf
                                "could not write to temp file" e))
                          | Ok _ =>
                              let sshkeyPath := file in
                              let k8s :=
                                Shell (Sub sh ["ssh"; "-i"; sshkeyPath;
                                               host; "--"]) [] in
                              let k8s := Handle k8s "sh" in
                              let k8s := Handle k8s "curl" in
                              let k8s := Handle k8s "kubectl" in
                              ret (Ok k8s)
                          end
                      end);;
              perform (OpClose file);;;
              ret res
          end
      end
  end.

Definition getK8s : M (result Machine) := OnceValues GK8s (k8sSetup getSpkez).

(** The function literal of [getCtl], over the getter it calls. *)
Definition ctlSetup (getK8s : M (result Machine)) : M (result Machine) :=
  r <- getK8s;;
  match r with
  | Err e => ret (Err e)
  | Ok k8s => ret (Ok (Sub k8s ["kubectl"]))
  end.

Definition getCtl : M (result Machine) := OnceValues GCtl (ctlSetup getK8s).

(** ** The provisioning steps *)

Definition installAutopatch (ctx : Context) : M (option error) :=
  r <- getK8s;;
  match r with
  | Err e => ret (Some e)
  | Ok k8s =>
      err <- WriteFile (WithFileMode ctx (oct 7 5 5)) k8s
               "/usr/local/bin/autopatch" autopatch;;
      match err with
      | Some e => ret (Some (Errorf "could not install autopatch" e))
      | None =>
          err <- WriteFile ctx k8s "/etc/cron.d/autopatch" autopatchCron;;
          match err with
          | Some e =>
              ret (Some (Errorf "could not install autopatch cron job" e))
          | None =>
              err <- WriteFile ctx k8s "/var/log/autopatch.log" "";;
              match err with
              | Some e =>
                  ret (Some (Errorf "could not create autopatch log" e))
              | None => ret None
              end
          end
      end
  end.

Definition updateK3s (ctx : Context) : M (option error) :=
  r <- getK8s;;
  match r with
  | Err e => ret (Some e)
  | Ok k8s =>
      r <- Copy (Command k8s ["sh"; "-s"; "-"])
                (FromCommand
                   (Command k8s ["curl"; "-sfL"; "https://get.k3s.io"]));;
      match snd r with
      | Some e => ret (Some (Errorf "could not update k3s" e))
      | None => ret None
      end
  end.

Definition setupTraefik (ctx : Context) : M (option error) :=
  r <- getCtl;;
  match r with
  | Err e => ret (Some e)
  | Ok ctl =>
      r <- Copy (Command ctl ["apply"; "-f"; "-"])
                (NewReader (traefikConfig cfg));;
      match snd r with
      | Some e => ret (Some (Errorf "could not configure traefik" e))
      | None => ret None
      end
  end.

Definition setupPostgres (ctx : Context) : M (option error) :=
  r <- getCtl;;
  match r with
  | Err e => ret (Some e)
  | Ok ctl =>
      err <- Exec ctx ctl
               ["apply"; "--server-side"; "--force-conflicts"; "-f";
                cnpgURL];;
      match err with
      | Some e => ret (Some (Errorf "could not install CNPG" e))
      | None =>
          r <- Copy (Command ctl ["apply"; "-f"; "-"])
                    (NewReader (postgresClusterCfg cfg));;
          match snd r with
          | Some e => ret (Some (Errorf "could not install PG cluster" e))
          | None => ret None
          end
      end
  end.

Definition setupCertManager (ctx : Context) : M (option error) :=
  r <- getCtl;;
  match r with
  | Err e => ret (Some e)
  | Ok ctl =>
      r <- getSpkez;;
      match r with
      | Err e => ret (Some e)
      | Ok spkez =>
          err <- Exec ctx ctl ["apply"; "-f"; certManagerURL];;
          match err with
          | Some e => ret (Some (Errorf "could not install cert-manager" e))
          | None =>
              r <- Call ctx spkez ["get"; "k8s/cert-manager/cloudflare"];;
              match r with
              | Err e =>
                  ret (Some (Errorf "could not get cloudflare API key" e))
              | Ok r =>
                  c <- Copy (Command ctl ["apply"; "-f"; "-"])
                            (NewReader
                               (Sprintf secretCfg
                                  ["cert-manager-cloudflare-token";
                                   "api-token"; r]));;
                  match snd c with
                  | Some e =>
                      ret (Some (Errorf
                                   "could not store cloudflare secret" e))
                  | None =>
                      c <- Copy (Command ctl ["apply"; "-f"; "-"])
                                (NewReader (issuerCfg cfg));;
                      match snd c with
                      | Some e =>
                          ret (Some (Errorf
                                 "could not create cloudflare issuer" e))
                      | None => ret None
                      end
                  end
              end
          end
      end
  end.

Definition setupContainerRegistry (ctx : Context) : M (option error) :=
  r <- getCtl;;
  match r with
  | Err e => ret (Some e)
  | Ok ctl =>
      r <- getSpkez;;
      match r with
      | Err e => ret (Some e)
      | Ok spkez =>
          r <- Call ctx spkez ["get"; "ctr.lesiw.dev/auth"];;
          match r with
          | Err e =>
              ret (Some (Errorf "could not get registry auth secret" e))
          | Ok r =>
              let reguser := "ll" in
              let regpass := r in
              c <- Copy (Command ctl ["apply"; "-f"; "-"])
                        (NewReader
                           (Sprintf basicAuthCfg
                              ["registry-auth-secret"; reguser; regpass]));;
              match snd c with
              | Some e =>
                  ret (Some (Errorf
                               "could not store registry auth secret" e))
              | None =>
                  c <- Copy (Command ctl ["apply"; "-f"; "-"])
                            (NewReader (registryCfg cfg));;
                  match snd c with
                  | Some e =>
                      ret (Some (Errorf "could not install registry" e))
                  | None =>
                      err <- Exec ctx ctl ["get"; "secret"; "regcred"];;
                      match err with
                      | Some _ =>
                          trace <- getTrace;;
                          res <- (setTrace Discard;;;
                                  err <- Exec ctx ctl
                                    ["create"; "secret"; "docker-registry";
                                     "regcred";
                                     "--docker-server=ctr.lesiw.dev";
                                     "--docker-username=" +:+ reguser;
                                     "--docker-password=" +:+ regpass];;
                                  match err with
                                  | Some e =>
                                      ret (Some (Errorf
                                        "could not store registry secret"
                                        e))
                                  | None => setTrace trace;;; ret None
                                  end);;
                          (* the deferred [command.Trace = trace] *)
                          setTrace trace;;;
                          ret res
                      | None => ret None
                      end
                  end
              end
          end
      end
  end.

(** ** The run *)

Definition run (ctx : Context) : M (option error) :=
  err <- installAutopatch ctx;;
  match err with
  | Some e => ret (Some e)
  | None =>
  err <- updateK3s ctx;;
  match err with
  | Some e => ret (Some (Errorf "failed to install or update k3s" e))
  | None =>
  err <- setupTraefik ctx;;
  match err with
  | Some e => ret (Some (Errorf "failed to set up traefik" e))
  | None =>
  err <- setupPostgres ctx;;
  match err with
  | Some e => ret (Some (Errorf "failed to set up postgres" e))
  | None =>
  err <- setupCertManager ctx;;
  match err with
  | Some e => ret (Some (Errorf "failed to set up cert-manager" e))
  | None =>
  err <- setupContainerRegistry ctx;;
  match err with
  | Some e => ret (Some (Errorf "failed to setup container registry" e))
  | None => ret None
  end end end end end end.

(** [defers.Run()]: the registered closures, last registered first. *)
Fixpoint runDeferred (ds : list Deferred) : M unit :=
  match ds with
  | [] => ret tt
  | RemoveFile name :: ds' => perform (OpRemove name);;; runDeferred ds'
  end.

Definition defers_Run : M unit := ds <- clearDeferred;; runDeferred ds.

(** [defers.Exit(code)]: the closures, then the process exits. *)
Definition defers_Exit (code : N) : M N := defers_Run;;; ret code.

(** [main]; the value is the exit code of the process.  [verbose] is the
    parsed [-v] flag. *)
Definition main (verbose : bool) : M N :=
  (if verbose then setTrace ShTrace else ret tt);;;
  err <- run Background;;
  match err with
  | Some e => Eprintln (error_string e);;; defers_Exit 1
  | None => defers_Run;;; ret 0%N
  end.

(** The steps of [run] with the message each failure is wrapped in. *)
Definition Step : Type := option string * (Context -> M (option error)).

Definition steps : list Step :=
  [ (None, installAutopatch);
    (Some "failed to install or update k3s", updateK3s);
    (Some "failed to set up traefik", setupTraefik);
    (Some "failed to set up postgres", setupPostgres);
    (Some "failed to set up cert-manager", setupCertManager);
    (Some "failed to setup container registry", setupContainerRegistry) ].

End Program.

Definition wrapWith (msg : option string) (e : error) : error :=
  match msg with
  | Some m => Errorf m e
  | None => e
  end.

(** The steps of a list all return nil, one after the other, from [w] to
    [w']. *)
Inductive AllOk (ctx : Context) : list Step -> World -> World -> Prop :=
| AllOk_nil w : AllOk ctx [] w w
| AllOk_cons msg s ss w w1 w' :
    s ctx w = (None, w1) -> AllOk ctx ss w1 w' ->
    AllOk ctx ((msg, s) :: ss) w w'.

(** A list of steps run the way [run] runs its six: one after the other,
    stopping at the first error, which is wrapped in the step's message. *)
Fixpoint runSteps (ss : list Step) (ctx : Context) : M (option error) :=
  match ss with
  | [] => ret None
  | (msg, s) :: rest =>
      err <- s ctx;;
      match err with
      | Some e => ret (Some (wrapWith msg e))
      | None => runSteps rest ctx
      end
  end.

(** The removals of temporary files done by the deferred closures. *)
Definition isCleanup (e : Event) : bool :=
  match e with
  | EvOp (OpRemove _) _ _ => true
  | _ => false
  end.

(** ** The first generation of the bootstrap ([runinit]) *)

Module Legacy.
Section Bootstrap.

Variable env : Env.

Definition host : string := "188.245.162.205".

(** [rnr.Get(args...)] and [rnr.Run(args...)] of the older runner: the
    counterparts of [Call] and [Exec]. *)
Definition Get (rnr : Machine) (args : list string) : M (result string) :=
  Call env Background rnr args.
Definition Run (rnr : Machine) (args : list string) : M (option error) :=
  Exec env Background rnr args.

(** [sub.WithRunner(rnr, prefix...)]. *)
Definition WithRunner (rnr : Machine) (prefix : list string) : Machine :=
  Sub rnr prefix.

(** The part of [runinit] after the path of spkez is known. *)
Definition fetchKey (runner : Machine) (spkez : string) : M (option error) :=
  r <- Get runner [spkez; "get"; "infra/ssh"];;
  match r with
  | Err e => ret (Some (Errorf "could not get ssh key" e))
  | Ok out =>
      r <- perform env (OpCreateTemp "" "sshkey");;
      match r with
      | Err e => ret (Some (Errorf "could not create temp file" e))
      | Ok file =>
          defers_Add (RemoveFile file);;;
          res <- (r <- perform env (OpChmod file (oct 6 0 0));;
                  match r with
                  | Err e =>
                      ret (Some (Errorf
                        "could not set permissions on temp file" e))
                  | Ok _ =>
                      r <- perform env
                             (OpWriteString file
                                (out +:+ String newline ""));;
                      match r with
                      | Err e =>
                          ret (Some (Errorf
                            "could not write to temp file" e))
                      | Ok _ =>
                          let k8s := WithRunner runner
                                       ["ssh"; "-i"; file; host; "--"] in
                          setGlobals (fun g =>
                            mkGlobals (rnr g) file (Some k8s)
                              (Some (WithRunner k8s ["kubectl"])));;;
                          ret None
                      end
                  end);;
          perform env (OpClose file);;;
          ret res
      end
  end.

Definition runinit : M (option error) :=
  let runner := sysMachine in
  setGlobals (fun g => mkGlobals (Some runner) (sshkey g) (k8s g) (ctl g));;;
  r <- Get runner ["which"; "spkez"];;
  match r with
  | Err _ =>
      err <- Run runner ["go"; "install"; "lesiw.io/spkez@latest"];;
      match err with
      | Some e => ret (Some (Errorf "could not install spkez" e))
      | None =>
          r <- Get runner ["which"; "spkez"];;
          match r with
          | Err e => ret (Some (Errorf "could not find spkez" e))
          | Ok spkez => fetchKey runner spkez
          end
      end
  | Ok spkez => fetchKey runner spkez
  end.

End Bootstrap.
End Legacy.

(** ** Concrete worlds and environments *)

(** The world at process start. *)
Definition initWorld : World :=
  mkWorld [] Discard ∅ [] None None None (mkGlobals None "" None None).

(** The world after [main] has seen the flag [-v]. *)
Definition verboseWorld : World :=
  mkWorld [] ShTrace ∅ [] None None None (mkGlobals None "" None None).

(** An environment in which every operation succeeds: the secrets tool
    hands out fixed values, the temporary file has a fixed name. *)
Definition okEnv : Env := fun _ op =>
  match op with
  | OpCreateTemp _ _ => Ok "/tmp/sshkey0001"
  | OpInvoke _ ["get"; "k8s/cert-manager/cloudflare"] _ =>
      Ok ("fake-cloudflare-token" +:+ String newline "")
  | OpInvoke _ ["get"; "ctr.lesiw.dev/auth"] _ =>
      Ok ("fake-registry-password" +:+ String newline "")
  | OpInvoke _ ["get"; "infra/ssh"] _ => Ok ("KEY" +:+ String newline "")
  | OpInvoke _ ("curl" :: _) _ => Ok "#!/bin/sh"
  | _ => Ok ""
  end.

Definition cfg0 : Manifests :=
  mkManifests "traefik" "cluster" "issuer" "registry".

(** The invocations of command [name] among [evs], as [mock.CallsFor]
    reports them. *)
Definition isCall (name : string) (e : Event) : bool :=
  match e with
  | EvOp (OpInvoke _ (cmd :: _) _) _ _ => String.eqb cmd name
  | _ => false
  end.

Definition CallsFor (name : string) (evs : list Event) : list Event :=
  List.filter (isCall name) evs.

(** Equality of argument vectors. *)
Fixpoint argsEqb (a b : list string) : bool :=
  match a, b with
  | [], [] => true
  | x :: a', y :: b' => String.eqb x y && argsEqb a' b'
  | _, _ => false
  end.

(** The invocations with exactly the argument vector [args] among [evs]. *)
Definition isInvocation (args : list string) (e : Event) : bool :=
  match e with
  | EvOp (OpInvoke _ a _) _ _ => argsEqb a args
  | _ => false
  end.

Definition InvocationsOf (args : list string) (evs : list Event)
  : list Event :=
  List.filter (isInvocation args) evs.

(** The assignments to [command.Trace] among [evs]. *)
Definition isSetTrace (e : Event) : bool :=
  match e with
  | EvSetTrace _ => true
  | _ => false
  end.

Definition TraceWrites (evs : list Event) : list Event :=
  List.filter isSetTrace evs.

(** The argument vectors the construction of the machines invokes. *)
Definition setupArgs : list (list string) :=
  [ ["spkez"; "--version"];
    ["go"; "install"; "lesiw.io/spkez@latest"];
    ["get"; "infra/ssh"] ].

(** What the construction of a machine may leave in the log while
    [command.Trace] is [t]: temporary-file operations, the install notice,
    the marks of [sync.OnceValues] and the invocations of [setupArgs]. *)
Definition isSetupEvent (t : Writer) (e : Event) : bool :=
  match e with
  | EvOp (OpInvoke _ args _) tr _ =>
      bool_decide (tr = t) && existsb (argsEqb args) setupArgs
  | EvOp (OpWriteFile _ _ _ _) _ _ => false
  | EvOp _ tr _ => bool_decide (tr = t)
  | EvSetTrace _ => false
  | EvPrint Stdout _ => true
  | EvPrint Stderr _ => false
  | EvOnce _ => true
  end.

(** [okEnv], except that the secret [regcred] does not exist yet; with
    [createOk = false] its creation fails as well. *)
Definition noRegcredEnv (createOk : bool) : Env := fun h op =>
  match op with
  | OpInvoke _ ["get"; "secret"; "regcred"] _ => Err (ErrExit 1)
  | OpInvoke _ ("create" :: _) _ =>
      if createOk then Ok "" else Err (ErrExit 1)
  | _ => okEnv h op
  end.

(** [okEnv], except that the secrets tool hands out a value with a line
    break and YAML syntax in it. *)
Definition yamlRaw : string :=
"token
admin: true # {not: escaped}
".

Definition yamlEnv : Env := fun h op =>
  match op with
  | OpInvoke _ ["get"; _] _ => Ok yamlRaw
  | _ => okEnv h op
  end.

(** [okEnv], except that [curl] exits with status 22. *)
Definition curlFailsEnv : Env := fun h op =>
  match op with
  | OpInvoke _ ("curl" :: _) _ => Err (ErrExit 22)
  | _ => okEnv h op
  end.

(** [okEnv], except that [spkez] is not installed and that looking it up
    with [which] breaks for a reason other than its absence. *)
Definition bootstrapEnv : Env := fun h op =>
  match op with
  | OpInvoke _ ["spkez"; "--version"] _ => Err (ErrNotFound "spkez")
  | OpInvoke _ ["which"; "spkez"] _ => Err (ErrIO "connection lost")
  | _ => okEnv h op
  end.

(** The argument vectors of the bootstrap: the install and the two ways of
    looking spkez up. *)
Definition installArgs : list string :=
  ["go"; "install"; "lesiw.io/spkez@latest"].
Definition versionArgs : list string := ["spkez"; "--version"].
Definition whichArgs : list string := ["which"; "spkez"].

(** What follows the first install attempt in a log. *)
Fixpoint afterInstall (evs : list Event) : list Event :=
  match evs with
  | [] => []
  | e :: evs' => if isInvocation installArgs e then evs' else afterInstall evs'
  end.

(** The argument vector of the [regcred] creation. *)
Definition createRegcred (reguser regpass : string) : list string :=
  ["create"; "secret"; "docker-registry"; "regcred";
   "--docker-server=ctr.lesiw.dev";
   "--docker-username=" +:+ reguser;
   "--docker-password=" +:+ regpass].

(** The machines the getters build in [okEnv]. *)
Definition spkez0 : Machine := Sub (Shell (Base "sys") ["go"; "spkez"]) ["spkez"].
Definition k8s0 : Machine :=
  Shell (Sub (Shell (Base "sys") ["ssh"])
             ["ssh"; "-i"; "/tmp/sshkey0001"; host; "--"])
        ["sh"; "curl"; "kubectl"].
Definition ctl0 : Machine := Sub k8s0 ["kubectl"].

(** *** Accesses to the memoized machines *)

Definition getter (env : Env) (g : Getter) : M (result Machine) :=
  match g with
  | GSpkez => getSpkez env
  | GK8s => getK8s env
  | GCtl => getCtl env
  end.

(** One access after the other; the values the accesses observed. *)
Fixpoint accesses (env : Env) (gs : list Getter)
  : M (list (result Machine)) :=
  match gs with
  | [] => ret []
  | g :: gs' =>
      r <- getter env g;;
      rs <- accesses env gs';;
      ret (r :: rs)
  end.

(** The side effects of the set-up of the machines that the log can count:
    the executions of the functions wrapped by [sync.OnceValues], the
    availability check of spkez, its installation, the retrieval of the SSH
    key and the creation of the key file. *)
Inductive Counter :=
| COnce (g : Getter)
| CLookup
| CInstall
| CKeyFetch
| CTempFile.

Definition counted (c : Counter) (e : Event) : bool :=
  match c, e with
  | COnce g, EvOnce g' => bool_decide (g = g')
  | CLookup, EvOp (OpInvoke _ a _) _ _ => argsEqb a versionArgs
  | CInstall, EvOp (OpInvoke _ a _) _ _ => argsEqb a installArgs
  | CKeyFetch, EvOp (OpInvoke _ a _) _ _ => argsEqb a ["get"; "infra/ssh"]
  | CTempFile, EvOp (OpCreateTemp _ _) _ _ => true
  | _, _ => false
  end.

Definition counts (c : Counter) (evs : list Event) : nat :=
  length (List.filter (counted c) evs).

(** The getter whose set-up a counted effect belongs to. *)
Definition owner (c : Counter) : Getter :=
  match c with
  | COnce g => g
  | CLookup | CInstall => GSpkez
  | CKeyFetch | CTempFile => GK8s
  end.

(** 1 when a memo cell goes from empty to filled, 0 otherwise. *)
Definition filled {A} (before after : option A) : nat :=
  match before, after with
  | None, Some _ => 1
  | _, _ => 0
  end.

(** What the function wrapped for getter [g] may itself add to a counter:
    nothing to the marks of [sync.OnceValues], at most one to its own
    effects. *)
Definition ownOps (g : Getter) (c : Counter) : nat :=
  match c with
  | COnce _ => 0
  | _ => if bool_decide (owner c = g) then 1 else 0
  end.

(** From [w] to [w']: filled memo cells keep their value, and a counter
    grows at most by one, and only when the cell of its owner is filled. *)
Definition Grows (w w' : World) : Prop :=
  (forall g x, onceCell g w = Some x -> onceCell g w' = Some x) /\
  (forall c, counts c (events w') <=
             counts c (events w)
             + filled (onceCell (owner c) w) (onceCell (owner c) w')).

(** The getters form a chain: [getCtl] calls [getK8s], which calls
    [getSpkez]. *)
Definition rank (g : Getter) : nat :=
  match g with
  | GSpkez => 0
  | GK8s => 1
  | GCtl => 2
  end.

(** [Grows], and the cells of rank [n] and above are untouched. *)
Definition Below (n : nat) (w w' : World) : Prop :=
  Grows w w' /\
  forall g, n <= rank g -> onceCell g w' = onceCell g w.

(** The function literals, taken by themselves, leave the memo cells alone
    and add at most their own effects to the log. *)
Definition OwnEffects (g : Getter) (w w' : World) : Prop :=
  (forall g', onceCell g' w' = onceCell g' w) /\
  exists evs : list Event,
    events w' = (events w ++ evs)%list /\
    forall c, counts c evs <= ownOps g c.

(** *** Concurrent accesses

    Modelled from the spec: the once-only primitive is a mutex and a done
    flag, as in Go's [sync.Once], on which [sync.OnceValues] is built.  A
    call first reads the done flag; when it is not set the call locks the
    mutex of the [Once], reads the flag again and, if it is still not set,
    runs the function, stores what it returned, sets the flag and unlocks.
    A thread is a stack of such calls, because the function of [getCtl]
    calls [getK8s] and that of [getK8s] calls [getSpkez]; the steps of the
    threads interleave in any order.  What a wrapped function does after
    the getter it calls has returned is one step: it runs under the mutex
    of its [Once], and the steps other threads can take meanwhile are
    flag reads, lock operations and the marks of started functions, none
    of which asks the outside anything. *)
Inductive Activation :=
| ACall (g : Getter)   (* about to read the done flag *)
| ALock (g : Getter)   (* the flag was not set: about to lock the mutex *)
| AHeld (g : Getter)   (* holds the mutex, about to read the flag again *)
| AWait (g : Getter).  (* holds the mutex; the function waits for the getter
                          it called *)

(** The value being returned to the top of the stack, if any, and the
    stack. *)
Definition Thread : Type := option (result Machine) * list Activation.

Record Sys := mkSys {
  world : World;
  holder : Getter -> option nat;
  threads : list Thread
}.

Definition setHolder (g : Getter) (v : option nat)
  (h : Getter -> option nat) : Getter -> option nat :=
  fun g' => if bool_decide (g' = g) then v else h g'.

(** The getter the function of [g] calls first. *)
Definition dep (g : Getter) : option Getter :=
  match g with
  | GSpkez => None
  | GK8s => Some GSpkez
  | GCtl => Some GK8s
  end.

(** One step of thread [i]; [None] when the thread is blocked on a mutex,
    has returned, or does not exist. *)
Definition stepThread (env : Env) (i : nat) (s : Sys) : option Sys :=
  match threads s !! i with
  | Some (None, ACall g :: k) =>
      match onceCell g (world s) with
      | Some r =>
          Some (mkSys (world s) (holder s) (<[i := (Some r, k)]> (threads s)))
      | None =>
          Some (mkSys (world s) (holder s)
                  (<[i := (None, ALock g :: k)]> (threads s)))
      end
  | Some (None, ALock g :: k) =>
      match holder s g with
      | None =>
          Some (mkSys (world s) (setHolder g (Some i) (holder s))
                  (<[i := (None, AHeld g :: k)]> (threads s)))
      | Some _ => None
      end
  | Some (None, AHeld g :: k) =>
      match onceCell g (world s) with
      | Some r =>
          Some (mkSys (world s) (setHolder g None (holder s))
                  (<[i := (Some r, k)]> (threads s)))
      | None =>
          let w1 := snd (log (EvOnce g) (world s)) in
          match dep g with
          | Some g' =>
              Some (mkSys w1 (holder s)
                      (<[i := (None, ACall g' :: AWait g :: k)]> (threads s)))
          | None =>
              let (r, w2) := spkezSetup env w1 in
              Some (mkSys (snd (setOnce g r w2)) (setHolder g None (holder s))
                      (<[i := (Some r, k)]> (threads s)))
          end
      end
  | Some (Some r, AWait g :: k) =>
      match g with
      | GSpkez => None
      | GK8s =>
          let (r', w2) := k8sSetup env (ret r) (world s) in
          Some (mkSys (snd (setOnce g r' w2)) (setHolder g None (holder s))
                  (<[i := (Some r', k)]> (threads s)))
      | GCtl =>
          let (r', w2) := ctlSetup (ret r) (world s) in
          Some (mkSys (snd (setOnce g r' w2)) (setHolder g None (holder s))
                  (<[i := (Some r', k)]> (threads s)))
      end
  | _ => None
  end.

(** A schedule names, step after step, the thread that runs; a thread that
    cannot step leaves the system as it is. *)
Fixpoint runSchedule (env : Env) (sched : list nat) (s : Sys) : Sys :=
  match sched with
  | [] => s
  | i :: sched' => runSchedule env sched' (default s (stepThread env i s))
  end.

(** One thread per access, all mutexes free. *)
Definition initSys (gs : list Getter) (w : World) : Sys :=
  mkSys w (fun _ => None) (List.map (fun g => (None, [ACall g])) gs).

(** The value thread [i] has returned with, if it has. *)
Definition returned (s : Sys) (i : nat) : option (result Machine) :=
  match threads s !! i with
  | Some (Some r, []) => Some r
  | _ => None
  end.

(** The getter whose value the stack [k] of a thread with goal [goal]
    waits for. *)
Definition awaits (goal : Getter) (k : list Activation) : option Getter :=
  match k with
  | [] => Some goal
  | AWait g :: _ => dep g
  | _ => None
  end.

(** Below its top a stack holds waiting functions only, each one waiting
    for the getter it called. *)
Fixpoint chain (goal : Getter) (k : list Activation) : Prop :=
  match k with
  | [] => True
  | AWait g :: k' => awaits goal k' = Some g /\ chain goal k'
  | _ => False
  end.

Definition calling (a : Activation) : option Getter :=
  match a with
  | ACall g | ALock g | AHeld g => Some g
  | AWait _ => None
  end.

Definition wfThread (goal : Getter) (w : World) (th : Thread) : Prop :=
  match th with
  | (None, a :: k) =>
      (exists g, calling a = Some g /\ awaits goal k = Some g) /\
      chain goal k
  | (None, []) => False
  | (Some r, k) =>
      chain goal k /\
      exists g, awaits goal k = Some g /\ onceCell g w = Some r
  end.

(** The thread holds the mutex of [g]. *)
Definition holds (g : Getter) (th : Thread) : Prop :=
  AHeld g ∈ th.2 \/ AWait g ∈ th.2.

(** What every reachable system satisfies, [gs] being the getters the
    threads were started on. *)
Record Inv (gs : list Getter) (s : Sys) : Prop := mkInv {
  inv_len : length (threads s) = length gs;
  inv_wf : forall i g th,
    gs !! i = Some g -> threads s !! i = Some th ->
    wfThread g (world s) th;
  inv_lock : forall i g th,
    threads s !! i = Some th -> holds g th -> holder s g = Some i;
  inv_wait : forall i g th,
    threads s !! i = Some th -> AWait g ∈ th.2 ->
    onceCell g (world s) = None;
  inv_count : forall c, counts c (events (world s)) <= 1;
  inv_zero : forall c,
    onceCell (owner c) (world s) = None ->
    counts c (events (world s)) = 0 \/
    (c = COnce (owner c) /\
     exists i th, threads s !! i = Some th /\ AWait (owner c) ∈ th.2)
}.

(** A thread that calls [g] while the mutexes up to [g] are free, and runs
    alone, comes back after some steps with the value of the getter, in the
    world the getter leaves and with the mutexes free again. *)
Definition Solo (env : Env) (g : Getter) : Prop :=
  forall s i k,
    threads s !! i = Some (None, ACall g :: k) ->
    (forall g', rank g' <= rank g -> holder s g' = None) ->
    exists n s',
      runSchedule env (replicate n i) s = s' /\
      world s' = snd (getter env g (world s)) /\
      threads s' =
        <[i := (Some (fst (getter env g (world s))), k)]> (threads s) /\
      (forall g', holder s' g' = holder s g').

(** [okEnv], except that the check of spkez breaks for a reason other than
    its absence. *)
Definition brokenSpkezEnv : Env := fun h op =>
  match op with
  | OpInvoke _ ["spkez"; "--version"] _ => Err (ErrIO "permission denied")
  | _ => okEnv h op
  end.

(** [okEnv], except that the cert-manager release cannot be applied. *)
Definition certManagerDownEnv : Env := fun h op =>
  match op with
  | OpInvoke _ args _ =>
      if argsEqb args ["apply"; "-f"; certManagerURL]
      then Err (ErrExit 1)
      else okEnv h op
  | _ => okEnv h op
  end.

(** The temporary files the events created and those they removed. *)
Definition createdFile (e : Event) : option string :=
  match e with
  | EvOp (OpCreateTemp _ _) _ (Ok file) => Some file
  | _ => None
  end.

Definition removedFile (e : Event) : option string :=
  match e with
  | EvOp (OpRemove file) _ _ => Some file
  | _ => None
  end.

Definition createdFiles (evs : list Event) : list string :=
  omap createdFile evs.

Definition removedFiles (evs : list Event) : list string :=
  omap removedFile evs.




(** A world at process start: no machine constructed, nothing counted. *)
Definition Fresh (w : World) : Prop :=
  (forall g, onceCell g w = None) /\ (forall c, counts c (events w) = 0).

(** [w1] differs from [w] at most in the memo cells, the deferred closures
    and a log extended by set-up events. *)
Definition Frame (w w1 : World) : Prop :=
  Trace w1 = Trace w /\ files w1 = files w /\ globals w1 = globals w /\
  exists evs : list Event,
    events w1 = (events w ++ evs)%list /\
    forallb (isSetupEvent (Trace w)) evs = true.

(** The world [w] after the events [evs], and nothing else, were added to
    its log. *)
Definition logged (evs : list Event) (w : World) : World :=
  mkWorld (events w ++ evs) (Trace w) (files w) (deferred w)
          (spkezOnce w) (k8sOnce w) (ctlOnce w) (globals w).

(** The trace setting an operation ran under is the prior one, [t], except
    for the invocations of command [suppressed], which ran under
    [io.Discard]. *)
Definition tracedUnder (t : Writer) (suppressed : string) (e : Event)
  : Prop :=
  match e with
  | EvOp (OpInvoke _ (cmd :: _) _) tr _ =>
      tr = if String.eqb cmd suppressed then Discard else t
  | EvOp _ tr _ => tr = t
  | _ => True
  end.

(** * Proofs *)

(** ** Frame properties of the memoized machines

    Constructing a machine touches neither [command.Trace], nor the remote
    files, nor the package variables of the older bootstrap. *)

Ltac unfold_m :=
  cbv beta delta [bind ret perform log Call Exec Copy WriteFile putFile
                  setTrace getTrace defers_Add setOnce setGlobals
                  clearDeferred Println Eprintln errOf] in *.

Ltac break_env :=
  repeat match goal with
         | |- context [match ?env ?h ?op with _ => _ end] =>
             destruct (env h op) eqn:?; simpl
         | |- context [if is_not_found ?e then _ else _] =>
             destruct (is_not_found e) eqn:?; simpl
         end.

Ltac frame_here :=
  repeat split; simpl; try done;
  eexists; split; [rewrite <- ?app_assoc; try reflexivity;
                   symmetry; apply app_nil_r
                  | simpl; rewrite ?bool_decide_eq_true_2 by reflexivity;
                    reflexivity].

Section Frames.
Variable env : Env.

Lemma Frame_refl w : Frame w w.
Proof. frame_here. Qed.

Lemma Frame_trans w1 w2 w3 : Frame w1 w2 -> Frame w2 w3 -> Frame w1 w3.
Proof.
  intros (?&?&?&evs1&E1&F1) (?&?&?&evs2&E2&F2).
  repeat split; try congruence.
  exists (evs1 ++ evs2)%list. split.
  - rewrite E2, E1. by rewrite app_assoc.
  - rewrite forallb_app, F1. replace (Trace w1) with (Trace w2) by done.
    by rewrite F2.
Qed.

Lemma OnceValues_frame g f :
  (forall w r w', f w = (r, w') -> Frame w w') ->
  forall w r w', OnceValues g f w = (r, w') -> Frame w w'.
Proof.
  intros Hf w r w'. unfold OnceValues.
  destruct (onceCell g w) eqn:Hc.
  - intros [= <- <-]. apply Frame_refl.
  - unfold_m. simpl. destruct (f _) as [r1 w1] eqn:Hf1.
    apply Hf in Hf1. intros [= <- <-].
    apply Frame_trans with w1.
    + eapply Frame_trans; [|exact Hf1]. frame_here.
    + destruct g; frame_here.
Qed.

Lemma spkezSetup_frame w r w' : spkezSetup env w = (r, w') -> Frame w w'.
Proof.
  unfold spkezSetup. unfold_m. simpl.
  break_env; intros [= <- <-]; frame_here.
Qed.

Lemma getSpkez_frame w r w' : getSpkez env w = (r, w') -> Frame w w'.
Proof. apply OnceValues_frame, spkezSetup_frame. Qed.

Lemma k8sSetup_frame get :
  (forall w r w', get w = (r, w') -> Frame w w') ->
  forall w r w', k8sSetup env get w = (r, w') -> Frame w w'.
Proof.
  intros Hg w r w'. unfold k8sSetup. unfold_m. simpl.
  destruct (get w) as [[m|e] w1] eqn:Hg1; apply Hg in Hg1.
  - break_env; intros [= <- <-];
      (eapply Frame_trans; [exact Hg1|]); frame_here.
  - by intros [= <- <-].
Qed.

Lemma getK8s_frame w r w' : getK8s env w = (r, w') -> Frame w w'.
Proof. apply OnceValues_frame, k8sSetup_frame, getSpkez_frame. Qed.

Lemma ctlSetup_frame get :
  (forall w r w', get w = (r, w') -> Frame w w') ->
  forall w r w', ctlSetup get w = (r, w') -> Frame w w'.
Proof.
  intros Hg w r w'. unfold ctlSetup. unfold_m.
  destruct (get w) as [[m|e] w1] eqn:Hg1; apply Hg in Hg1;
    by intros [= <- <-].
Qed.

Lemma getCtl_frame w r w' : getCtl env w = (r, w') -> Frame w w'.
Proof. apply OnceValues_frame, ctlSetup_frame, getK8s_frame. Qed.
End Frames.

(** A computation whose value is known returns it with the world it leaves. *)
Lemma run_value {A} (m : M A) (w : World) (a : A) :
  fst (m w) = a -> m w = (a, snd (m w)).
Proof. destruct (m w); simpl; congruence. Qed.

(** ** Autopatch install *)

(** C2. Whenever [installAutopatch] returns nil, the machine [k8s] that
    [getK8s] handed out holds, at [/usr/local/bin/autopatch], exactly the
    embedded script with permission bits 0755 and, at
    [/etc/cron.d/autopatch], exactly [autopatchCron]. *)
Theorem installAutopatch_installs env ctx w w' :
  installAutopatch env ctx w = (None, w') ->
  exists k8s w1 script cron,
    getK8s env w = (Ok k8s, w1) /\
    files w' !! (k8s, "/usr/local/bin/autopatch") = Some script /\
    content script = autopatch /\
    Perm (mode script) = oct 7 5 5 /\
    files w' !! (k8s, "/etc/cron.d/autopatch") = Some cron /\
    content cron = autopatchCron.
Proof.
  unfold installAutopatch. unfold_m.
  destruct (getK8s env w) as [[k8s|e] w1] eqn:Hget; [|done].
  simpl. break_env; intros [= <-].
  exists k8s, w1. eexists _, _. split; [done|]. simpl.
  rewrite lookup_insert_ne by (intros [= ?]; done).
  rewrite lookup_insert_ne by (intros [= ?]; done).
  rewrite lookup_insert_eq.
  rewrite lookup_insert_ne by (intros [= ?]; done).
  rewrite lookup_insert_eq.
  repeat split; reflexivity.
Qed.

Lemma installAutopatch_installs_witness :
  let w' := snd (installAutopatch okEnv Background initWorld) in
  exists k8s w1 script cron,
    getK8s okEnv initWorld = (Ok k8s, w1) /\
    files w' !! (k8s, "/usr/local/bin/autopatch") = Some script /\
    content script = autopatch /\
    Perm (mode script) = oct 7 5 5 /\
    files w' !! (k8s, "/etc/cron.d/autopatch") = Some cron /\
    content cron = autopatchCron.
Proof.
  intros w'. apply (installAutopatch_installs okEnv Background initWorld w').
  apply (run_value (installAutopatch okEnv Background) initWorld None).
  vm_compute. reflexivity.
Defined.

(** ** k3s update *)

Lemma CallsFor_app name (evs1 evs2 : list Event) :
  CallsFor name (evs1 ++ evs2) = (CallsFor name evs1 ++ CallsFor name evs2)%list.
Proof. apply List.filter_app. Qed.

Lemma argsEqb_eq a b : argsEqb a b = true <-> a = b.
Proof.
  revert b. induction a as [|x a IH]; intros [|y b]; simpl; try done.
  rewrite andb_true_iff, IH, String.eqb_eq. split.
  - by intros [-> ->].
  - by intros [= -> ->].
Qed.

(** Set-up events contain no invocation of a command other than [spkez],
    [go] and [get]. *)
Lemma CallsFor_setup t name evs :
  forallb (isSetupEvent t) evs = true ->
  String.eqb name "spkez" || String.eqb name "go" || String.eqb name "get"
    = false ->
  CallsFor name evs = [].
Proof.
  intros Hall Hname. induction evs as [|e evs IH]; [done|].
  simpl in Hall. apply andb_prop in Hall as [He Hall].
  unfold CallsFor in *. simpl. rewrite (IH Hall).
  destruct e as [[m [|cmd args] sin| | | | | |] tr res| | |];
    simpl in *; try done.
  destruct (String.eqb_spec cmd name) as [->|]; [|done].
  apply andb_prop in He as [_ He].
  destruct (name =? "spkez")%string, (name =? "go")%string,
    (name =? "get")%string; simpl in *; done.
Qed.

(** ... and no invocation with an argument vector outside [setupArgs]. *)
Lemma InvocationsOf_setup t args evs :
  forallb (isSetupEvent t) evs = true ->
  existsb (argsEqb args) setupArgs = false ->
  InvocationsOf args evs = [].
Proof.
  intros Hall Hargs. induction evs as [|e evs IH]; [done|].
  simpl in Hall. apply andb_prop in Hall as [He Hall].
  unfold InvocationsOf in *. simpl. rewrite (IH Hall).
  destruct e as [[m a sin| | | | | |] tr res| | |]; simpl in *; try done.
  destruct (argsEqb a args) eqn:Ha; [|done].
  apply argsEqb_eq in Ha as ->. apply andb_prop in He as [_ He].
  congruence.
Qed.

Lemma InvocationsOf_app args (evs1 evs2 : list Event) :
  InvocationsOf args (evs1 ++ evs2) =
  (InvocationsOf args evs1 ++ InvocationsOf args evs2)%list.
Proof. apply List.filter_app. Qed.



(** ** cert-manager and the container registry *)

(** Answer an invocation the hypothesis [H] promises to succeed. *)
Ltac env_ok H :=
  match goal with
  | |- context [?env ?h (OpInvoke ?m (?c :: ?a) ?s)] =>
      let o := fresh "o" in
      let Ho := fresh "Ho" in
      destruct (H h a s) as [o Ho]; rewrite Ho; simpl
  end.

(** What [setupCertManager] does once both machines are at hand, the
    secrets machine answers [raw] and the control machine accepts every
    [apply]. *)
Lemma setupCertManager_spec env cfg ctx w ctl spkez w1 w2 raw :
  getCtl env w = (Ok ctl, w1) ->
  getSpkez env w1 = (Ok spkez, w2) ->
  (forall h, env h (OpInvoke spkez ["get"; "k8s/cert-manager/cloudflare"] "")
             = Ok raw) ->
  (forall h args stdin,
     exists out, env h (OpInvoke ctl ("apply" :: args) stdin) = Ok out) ->
  exists w' o1 o2 o3,
    setupCertManager env cfg ctx w = (None, w') /\
    events w' =
      (events w2 ++
       [EvOp (OpInvoke ctl ["apply"; "-f"; certManagerURL] "")
             (Trace w) (Ok o1);
        EvOp (OpInvoke spkez ["get"; "k8s/cert-manager/cloudflare"] "")
             (Trace w) (Ok raw);
        EvOp (OpInvoke ctl ["apply"; "-f"; "-"]
                (Sprintf secretCfg
                   ["cert-manager-cloudflare-token"; "api-token";
                    trimNewline raw]))
             (Trace w) (Ok o2);
        EvOp (OpInvoke ctl ["apply"; "-f"; "-"] (issuerCfg cfg))
             (Trace w) (Ok o3)])%list.
Proof.
  intros Hctl Hspkez Hget Happly.
  unfold setupCertManager. unfold_m. rewrite Hctl, Hspkez.
  cbv beta iota zeta.
  apply getCtl_frame in Hctl as (Ht1&_).
  apply getSpkez_frame in Hspkez as (Ht2&_).
  rewrite <- Ht1, <- Ht2.
  set (secret := Sprintf _ _).
  cbn [events Trace snd fst].
  env_ok Happly. rewrite Hget. cbn [events Trace snd fst].
  env_ok Happly. env_ok Happly.
  eexists _, _, _, _. split; [reflexivity|].
  cbn [events]. by rewrite <- !app_assoc.
Qed.

(** C4. With machines [ctl] and [spkez] handed out by the getters, a
    secrets machine that answers [get k8s/cert-manager/cloudflare] with
    the token followed by a newline, and a control machine that accepts
    every [apply]: [setupCertManager] returns nil, and its [apply]
    invocations are exactly three, in the order install URL, cloudflare
    secret, issuer; the secret manifest contains the secret's name and the
    token, and not the token with its newline. *)
Theorem setupCertManager_applies env cfg ctx w ctl spkez w1 w2 :
  getCtl env w = (Ok ctl, w1) ->
  getSpkez env w1 = (Ok spkez, w2) ->
  (forall h, env h (OpInvoke spkez ["get"; "k8s/cert-manager/cloudflare"] "")
             = Ok ("fake-cloudflare-token" +:+ String newline "")) ->
  (forall h args stdin,
     exists out, env h (OpInvoke ctl ("apply" :: args) stdin) = Ok out) ->
  exists w' o1 o2 o3,
    setupCertManager env cfg ctx w = (None, w') /\
    let t := Trace w in
    let secret :=
      Sprintf secretCfg
        ["cert-manager-cloudflare-token"; "api-token";
         "fake-cloudflare-token"] in
    let install :=
      EvOp (OpInvoke ctl ["apply"; "-f"; certManagerURL] "") t (Ok o1) in
    let store :=
      EvOp (OpInvoke ctl ["apply"; "-f"; "-"] secret) t (Ok o2) in
    let issuer :=
      EvOp (OpInvoke ctl ["apply"; "-f"; "-"] (issuerCfg cfg)) t (Ok o3) in
    (forall evs : list Event,
       events w' = (events w ++ evs)%list ->
       CallsFor "apply" evs = [install; store; issuer]) /\
    Contains secret "cert-manager-cloudflare-token" = true /\
    Contains secret "fake-cloudflare-token" = true /\
    Contains secret ("fake-cloudflare-token" +:+ String newline "") = false.
Proof.
  intros Hctl Hspkez Hget Happly.
  destruct (setupCertManager_spec env cfg ctx w ctl spkez w1 w2 _
              Hctl Hspkez Hget Happly) as (w'&o1&o2&o3&Hrun&Hev).
  exists w', o1, o2, o3. split; [done|]. cbv zeta.
  split; [|by vm_compute].
  intros evs Hevs.
  apply getCtl_frame in Hctl as (_&_&_&evs1&E1&F1).
  apply getSpkez_frame in Hspkez as (_&_&_&evs2&E2&F2).
  rewrite Hev, E2, E1, <- !app_assoc in Hevs.
  apply app_inv_head in Hevs as <-.
  rewrite !CallsFor_app, !(CallsFor_setup _ "apply") by done.
  reflexivity.
Qed.

Lemma setupCertManager_applies_witness :
  exists w' o1 o2 o3,
    setupCertManager okEnv cfg0 Background initWorld = (None, w') /\
    let t := Trace initWorld in
    let secret :=
      Sprintf secretCfg
        ["cert-manager-cloudflare-token"; "api-token";
         "fake-cloudflare-token"] in
    let install :=
      EvOp (OpInvoke ctl0 ["apply"; "-f"; certManagerURL] "") t (Ok o1) in
    let store :=
      EvOp (OpInvoke ctl0 ["apply"; "-f"; "-"] secret) t (Ok o2) in
    let issuer :=
      EvOp (OpInvoke ctl0 ["apply"; "-f"; "-"] (issuerCfg cfg0)) t (Ok o3) in
    (forall evs : list Event,
       events w' = (events initWorld ++ evs)%list ->
       CallsFor "apply" evs = [install; store; issuer]) /\
    Contains secret "cert-manager-cloudflare-token" = true /\
    Contains secret "fake-cloudflare-token" = true /\
    Contains secret ("fake-cloudflare-token" +:+ String newline "") = false.
Proof.
  apply (setupCertManager_applies okEnv cfg0 Background initWorld ctl0 spkez0
           (snd (getCtl okEnv initWorld))
           (snd (getSpkez okEnv (snd (getCtl okEnv initWorld))))).
  - apply (run_value (getCtl okEnv) initWorld (Ok ctl0)).
    vm_compute. reflexivity.
  - apply (run_value (getSpkez okEnv) (snd (getCtl okEnv initWorld))
             (Ok spkez0)).
    vm_compute. reflexivity.
  - intros h. reflexivity.
  - intros h args stdin. eexists. reflexivity.
Defined.

(** The whole of [setupContainerRegistry] once both machines are at hand,
    the secrets machine has answered [raw] and the control machine has
    accepted the two manifests, each at the point of the log where the
    function asked.  The answers to the existence check and to the creation
    are whatever the outside gives at their points of the log. *)
Lemma setupContainerRegistry_run env cfg ctx w ctl spkez w1 w2 raw o1 o2 :
  let t := Trace w in
  let pass := trimNewline raw in
  let fetch :=
    EvOp (OpInvoke spkez ["get"; "ctr.lesiw.dev/auth"] "") t (Ok raw) in
  let auth := Sprintf basicAuthCfg ["registry-auth-secret"; "ll"; pass] in
  let store := EvOp (OpInvoke ctl ["apply"; "-f"; "-"] auth) t (Ok o1) in
  let registry :=
    EvOp (OpInvoke ctl ["apply"; "-f"; "-"] (registryCfg cfg)) t (Ok o2) in
  let before := (events w2 ++ [fetch; store; registry])%list in
  let checked := env before (OpInvoke ctl ["get"; "secret"; "regcred"] "") in
  let check :=
    EvOp (OpInvoke ctl ["get"; "secret"; "regcred"] "") t checked in
  let created :=
    env (before ++ [check; EvSetTrace Discard])%list
        (OpInvoke ctl (createRegcred "ll" pass) "") in
  let create :=
    EvOp (OpInvoke ctl (createRegcred "ll" pass) "") Discard created in
  getCtl env w = (Ok ctl, w1) ->
  getSpkez env w1 = (Ok spkez, w2) ->
  env (events w2) (OpInvoke spkez ["get"; "ctr.lesiw.dev/auth"] "") = Ok raw ->
  env (events w2 ++ [fetch])%list (OpInvoke ctl ["apply"; "-f"; "-"] auth)
    = Ok o1 ->
  env (events w2 ++ [fetch; store])%list
      (OpInvoke ctl ["apply"; "-f"; "-"] (registryCfg cfg)) = Ok o2 ->
  setupContainerRegistry env cfg ctx w =
    match checked with
    | Ok _ => (None, logged [fetch; store; registry; check] w2)
    | Err _ =>
        (match created with
         | Ok _ => None
         | Err e => Some (Errorf "could not store registry secret" e)
         end,
         logged ([fetch; store; registry; check; EvSetTrace Discard; create]
                 ++ match created with
                    | Ok _ => [EvSetTrace t]
                    | Err _ => []
                    end ++ [EvSetTrace t]) w2)
    end.
Proof.
  intros t pass fetch auth store registry before checked check created create
    Hctl Hspkez Hget Hstore Hreg.
  unfold setupContainerRegistry. unfold_m. rewrite Hctl, Hspkez.
  cbv beta iota zeta.
  assert (Ht : Trace w2 = t).
  { apply getCtl_frame in Hctl as (Ht1&_).
    apply getSpkez_frame in Hspkez as (Ht2&_). subst t. congruence. }
  rewrite Hget. cbn [events Trace files deferred spkezOnce k8sOnce ctlOnce globals snd fst cmd_on cmd_args].
  rewrite Ht. fold pass. fold auth. fold fetch.
  rewrite Hstore. cbn [events Trace files deferred spkezOnce k8sOnce ctlOnce globals snd fst cmd_on cmd_args].
  fold store. rewrite <- ?app_assoc. cbn [app].
  rewrite Hreg. cbn [events Trace files deferred spkezOnce k8sOnce ctlOnce globals snd fst cmd_on cmd_args].
  fold registry. rewrite <- ?app_assoc. cbn [app].
  fold before. fold checked.
  destruct checked as [o3|e] eqn:Hchecked;
    cbn [events Trace files deferred spkezOnce k8sOnce ctlOnce globals snd fst cmd_on cmd_args].
  - unfold logged. rewrite Ht. fold check. by rewrite <- ?app_assoc.
  - fold check. rewrite <- ?app_assoc. cbn [app].
    subst create created before. unfold createRegcred.
    rewrite <- ?app_assoc. cbn [app].
    match goal with
    | |- context [match env ?h ?op with _ => _ end] =>
        destruct (env h op) as [o4|e']
    end;
      cbn [events Trace files deferred spkezOnce k8sOnce ctlOnce globals
           snd fst]; unfold logged; rewrite Ht, <- ?app_assoc; reflexivity.
Qed.

(** Set-up operations ran under the prior trace setting. *)
Lemma tracedUnder_setup t evs :
  forallb (isSetupEvent t) evs = true -> Forall (tracedUnder t "create") evs.
Proof.
  intros Hall. induction evs as [|e evs IH]; [constructor|].
  simpl in Hall. apply andb_prop in Hall as [He Hall].
  constructor; [|by apply IH].
  destruct e as [[m [|cmd args] sin| | | | | |] tr res| | |];
    simpl in *; try done;
    try (by apply bool_decide_eq_true_1 in He);
    apply andb_prop in He as [Htr He];
    apply bool_decide_eq_true_1 in Htr as ->; try done.
  destruct (String.eqb_spec cmd "create") as [->|]; [|done].
  done.
Qed.

(** C5. With machines [ctl] and [spkez] handed out by the getters, a
    secrets machine that answered [get ctr.lesiw.dev/auth] with the password
    followed by a newline, and a control machine that accepted the two
    manifests: the basic-auth manifest contains [registry-auth-secret] and
    the password, and what [setupContainerRegistry] did after the getters
    is, in this order: the retrieval, the two applies, the existence check
    [get secret regcred], and, only when the check failed at that point of
    the log, the assignment of [io.Discard] to [command.Trace], the
    creation with the user name [ll] and the password in its arguments and
    the restoring assignments.  Over everything the call added to the log:
    the check was invoked exactly once whatever it answered, the creation
    once when the check failed and not at all otherwise, and the creation
    is the only operation that ran with tracing suppressed. *)
Theorem setupContainerRegistry_creates env cfg ctx w ctl spkez w1 w2 o1 o2 :
  let t := Trace w in
  let fetch :=
    EvOp (OpInvoke spkez ["get"; "ctr.lesiw.dev/auth"] "") t
         (Ok ("fake-registry-password" +:+ String newline "")) in
  let auth :=
    Sprintf basicAuthCfg
      ["registry-auth-secret"; "ll"; "fake-registry-password"] in
  let store := EvOp (OpInvoke ctl ["apply"; "-f"; "-"] auth) t (Ok o1) in
  let registry :=
    EvOp (OpInvoke ctl ["apply"; "-f"; "-"] (registryCfg cfg)) t (Ok o2) in
  let before := (events w2 ++ [fetch; store; registry])%list in
  let checked := env before (OpInvoke ctl ["get"; "secret"; "regcred"] "") in
  let check :=
    EvOp (OpInvoke ctl ["get"; "secret"; "regcred"] "") t checked in
  let args :=
    ["create"; "secret"; "docker-registry"; "regcred";
     "--docker-server=ctr.lesiw.dev";
     "--docker-username=ll";
     "--docker-password=fake-registry-password"] in
  let created :=
    env (before ++ [check; EvSetTrace Discard])%list (OpInvoke ctl args "") in
  let create := EvOp (OpInvoke ctl args "") Discard created in
  let w' := snd (setupContainerRegistry env cfg ctx w) in
  getCtl env w = (Ok ctl, w1) ->
  getSpkez env w1 = (Ok spkez, w2) ->
  env (events w2) (OpInvoke spkez ["get"; "ctr.lesiw.dev/auth"] "")
    = Ok ("fake-registry-password" +:+ String newline "") ->
  env (events w2 ++ [fetch])%list (OpInvoke ctl ["apply"; "-f"; "-"] auth)
    = Ok o1 ->
  env (events w2 ++ [fetch; store])%list
      (OpInvoke ctl ["apply"; "-f"; "-"] (registryCfg cfg)) = Ok o2 ->
  Contains auth "registry-auth-secret" = true /\
  Contains auth "fake-registry-password" = true /\
  events w' =
    (events w2 ++ [fetch; store; registry; check] ++
     match checked with
     | Ok _ => []
     | Err _ =>
         [EvSetTrace Discard; create] ++
         match created with
         | Ok _ => [EvSetTrace t]
         | Err _ => []
         end ++ [EvSetTrace t]
     end)%list /\
  forall evs : list Event,
    events w' = (events w ++ evs)%list ->
    CallsFor "apply" evs = [store; registry] /\
    InvocationsOf ["get"; "secret"; "regcred"] evs = [check] /\
    CallsFor "create" evs =
      match checked with
      | Ok _ => []
      | Err _ => [create]
      end /\
    Forall (tracedUnder t "create") evs.
Proof.
  intros t fetch auth store registry before checked check args created create
    w' Hctl Hspkez Hget Hstore Hreg.
  split; [by vm_compute|]. split; [by vm_compute|].
  pose proof (setupContainerRegistry_run env cfg ctx w ctl spkez w1 w2
                _ o1 o2 Hctl Hspkez Hget Hstore Hreg) as Hrun.
  cbv zeta in Hrun.
  change (trimNewline ("fake-registry-password" +:+ String newline ""))
    with "fake-registry-password" in Hrun.
  change (createRegcred "ll" "fake-registry-password") with args in Hrun.
  fold t fetch auth store registry before checked check created create
    in Hrun.
  assert (Hev : events w' =
    (events w2 ++ [fetch; store; registry; check] ++
     match checked with
     | Ok _ => []
     | Err _ =>
         [EvSetTrace Discard; create] ++
         match created with
         | Ok _ => [EvSetTrace t]
         | Err _ => []
         end ++ [EvSetTrace t]
     end)%list).
  { subst w'. rewrite Hrun. subst before.
    destruct checked; [|destruct created]; cbn [snd logged events];
      by rewrite <- ?app_assoc. }
  split; [exact Hev|].
  intros evs Hevs.
  apply getCtl_frame in Hctl as (Ht1&_&_&evs1&E1&F1).
  apply getSpkez_frame in Hspkez as (_&_&_&evs2&E2&F2).
  rewrite Ht1 in F2. fold t in F1, F2.
  rewrite Hev in Hevs. subst before.
  rewrite E2, E1, <- !app_assoc in Hevs.
  apply app_inv_head in Hevs as <-.
  rewrite !CallsFor_app, !InvocationsOf_app.
  rewrite !(CallsFor_setup t "apply"), !(CallsFor_setup t "create"),
    !(InvocationsOf_setup t ["get"; "secret"; "regcred"]) by done.
  rewrite !Forall_app.
  destruct checked; [|destruct created]; repeat split;
    try (by apply tracedUnder_setup); repeat constructor.
Qed.

Lemma setupContainerRegistry_creates_witness :
  let env := noRegcredEnv true in
  let w2 := snd (getSpkez env (snd (getCtl env verboseWorld))) in
  let w' := snd (setupContainerRegistry env cfg0 Background verboseWorld) in
  let fetch :=
    EvOp (OpInvoke spkez0 ["get"; "ctr.lesiw.dev/auth"] "") ShTrace
         (Ok ("fake-registry-password" +:+ String newline "")) in
  let auth :=
    Sprintf basicAuthCfg
      ["registry-auth-secret"; "ll"; "fake-registry-password"] in
  let store :=
    EvOp (OpInvoke ctl0 ["apply"; "-f"; "-"] auth) ShTrace (Ok "") in
  let registry :=
    EvOp (OpInvoke ctl0 ["apply"; "-f"; "-"] (registryCfg cfg0)) ShTrace
         (Ok "") in
  let check :=
    EvOp (OpInvoke ctl0 ["get"; "secret"; "regcred"] "") ShTrace
         (Err (ErrExit 1)) in
  let create :=
    EvOp (OpInvoke ctl0
            ["create"; "secret"; "docker-registry"; "regcred";
             "--docker-server=ctr.lesiw.dev";
             "--docker-username=ll";
             "--docker-password=fake-registry-password"] "")
         Discard (Ok "") in
  events w' =
    (events w2 ++
     [fetch; store; registry; check; EvSetTrace Discard; create;
      EvSetTrace ShTrace; EvSetTrace ShTrace])%list /\
  forall evs : list Event,
    events w' = (events verboseWorld ++ evs)%list ->
    CallsFor "apply" evs = [store; registry] /\
    InvocationsOf ["get"; "secret"; "regcred"] evs = [check] /\
    CallsFor "create" evs = [create] /\
    Forall (tracedUnder ShTrace "create") evs.
Proof.
  intros env w2 w' fetch auth store registry check create.
  assert (Hr1 : fst (getCtl env verboseWorld) = Ok ctl0)
    by (vm_compute; reflexivity).
  assert (Hr2 : fst (getSpkez env (snd (getCtl env verboseWorld)))
                = Ok spkez0) by (vm_compute; reflexivity).
  subst w2.
  destruct (getCtl env verboseWorld) as [r1 W1] eqn:Hctl.
  cbn [fst snd] in Hr1, Hr2 |- *. subst r1.
  destruct (getSpkez env W1) as [r2 W2] eqn:Hspkez.
  cbn [fst snd] in Hr2 |- *. subst r2.
  destruct (setupContainerRegistry_creates env cfg0 Background verboseWorld
              ctl0 spkez0 W1 W2 "" "" Hctl Hspkez eq_refl eq_refl eq_refl)
    as (_&_&Hev&Hall).
  split; [exact Hev|exact Hall].
Defined.

(** The case of the repository's test: the secret exists already. *)
Example registry_secret_present :
  let r := setupContainerRegistry okEnv cfg0 Background verboseWorld in
  fst r = None /\
  InvocationsOf ["get"; "secret"; "regcred"] (events (snd r)) =
    [EvOp (OpInvoke ctl0 ["get"; "secret"; "regcred"] "") ShTrace (Ok "")] /\
  CallsFor "create" (events (snd r)) = [].
Proof. vm_compute. done. Qed.

(** ** The trace setting around the creation of [regcred] *)

Lemma TraceWrites_app (evs1 evs2 : list Event) :
  TraceWrites (evs1 ++ evs2) = (TraceWrites evs1 ++ TraceWrites evs2)%list.
Proof. apply List.filter_app. Qed.

(** Constructing the machines never assigns [command.Trace]. *)
Lemma TraceWrites_setup t evs :
  forallb (isSetupEvent t) evs = true -> TraceWrites evs = [].
Proof.
  intros Hall. induction evs as [|e evs IH]; [done|].
  simpl in Hall. apply andb_prop in Hall as [He Hall].
  unfold TraceWrites in *. simpl. rewrite (IH Hall).
  by destruct e.
Qed.

(** The events a run from [w] added, given the set-up events up to an
    intermediate world. *)
Ltac new_events Hevs E1 E2 :=
  cbn [events] in Hevs;
  rewrite ?E2, ?E1, <- ?app_assoc in Hevs;
  apply app_inv_head in Hevs as <-.

(** C6. On every exit path of [setupContainerRegistry], [command.Trace]
    ends with the value it had.  Either the function never assigned it, or
    it assigned [io.Discard] and then restored the prior value: by the
    explicit assignment and the deferred one when the creation succeeded
    (the function returns nil), by the deferred one alone when the creation
    failed (the function returns the wrapped error). *)
Theorem setupContainerRegistry_restores_trace env cfg ctx w :
  let res := fst (setupContainerRegistry env cfg ctx w) in
  let w' := snd (setupContainerRegistry env cfg ctx w) in
  let t := Trace w in
  Trace w' = t /\
  forall evs : list Event,
    events w' = (events w ++ evs)%list ->
    TraceWrites evs = [] \/
    (res = None /\
     TraceWrites evs = [EvSetTrace Discard; EvSetTrace t; EvSetTrace t]) \/
    (exists e,
       res = Some (Errorf "could not store registry secret" e) /\
       TraceWrites evs = [EvSetTrace Discard; EvSetTrace t]).
Proof.
  cbv zeta. unfold setupContainerRegistry. unfold_m.
  destruct (getCtl env w) as [[ctl|e] w1] eqn:Hctl;
    apply getCtl_frame in Hctl as (Ht1&_&_&evs1&E1&F1).
  2:{ simpl. split; [done|]. intros evs Hevs. left.
      rewrite E1 in Hevs. apply app_inv_head in Hevs as <-.
      by apply (TraceWrites_setup (Trace w)). }
  destruct (getSpkez env w1) as [[spkez|e] w2] eqn:Hsp;
    apply getSpkez_frame in Hsp as (Ht2&_&_&evs2&E2&F2);
    rewrite Ht1 in F2.
  2:{ simpl. split; [congruence|]. intros evs Hevs. left.
      rewrite E2, E1, <- app_assoc in Hevs.
      apply app_inv_head in Hevs as <-.
      rewrite TraceWrites_app.
      by rewrite !(TraceWrites_setup (Trace w)). }
  cbv beta iota zeta. cbn [events Trace snd fst cmd_on cmd_args].
  break_env; cbn [events Trace snd fst]; (split; [congruence|]);
    intros evs Hevs; new_events Hevs E1 E2;
    rewrite !TraceWrites_app, !(TraceWrites_setup (Trace w)) by done;
    cbn; rewrite ?Ht2, ?Ht1; eauto.
Qed.

(** Both exit paths, run in verbose mode. *)
Example restores_trace_created :
  let r := setupContainerRegistry (noRegcredEnv true) cfg0 Background
             verboseWorld in
  fst r = None /\ Trace (snd r) = ShTrace /\
  TraceWrites (events (snd r)) =
    [EvSetTrace Discard; EvSetTrace ShTrace; EvSetTrace ShTrace].
Proof. vm_compute. done. Qed.

Example restores_trace_failed :
  let r := setupContainerRegistry (noRegcredEnv false) cfg0 Background
             verboseWorld in
  fst r = Some (Errorf "could not store registry secret" (ErrExit 1)) /\
  Trace (snd r) = ShTrace /\
  TraceWrites (events (snd r)) = [EvSetTrace Discard; EvSetTrace ShTrace].
Proof. vm_compute. done. Qed.

(** C9. With machines [ctl] and [spkez] handed out by the getters, a
    secrets machine that answered [get ctr.lesiw.dev/auth] and a control
    machine that accepted the two manifests: when the existence check
    succeeds at the point of the log where it is issued, the function
    returns nil in the world the check left, which is the world after the
    getters with the retrieval, the two applies and the check added to the
    log and nothing else changed; no [create] was invoked and
    [command.Trace] was never assigned.  When the check fails there, what
    the function returns is decided by the creation alone, nil when it
    succeeds and its wrapped error otherwise, so the failure of the check
    is never what is reported; the creation is invoked exactly once. *)
Theorem setupContainerRegistry_check env cfg ctx w ctl spkez w1 w2 raw o1 o2 :
  let t := Trace w in
  let pass := trimNewline raw in
  let fetch :=
    EvOp (OpInvoke spkez ["get"; "ctr.lesiw.dev/auth"] "") t (Ok raw) in
  let auth := Sprintf basicAuthCfg ["registry-auth-secret"; "ll"; pass] in
  let store := EvOp (OpInvoke ctl ["apply"; "-f"; "-"] auth) t (Ok o1) in
  let registry :=
    EvOp (OpInvoke ctl ["apply"; "-f"; "-"] (registryCfg cfg)) t (Ok o2) in
  let before := (events w2 ++ [fetch; store; registry])%list in
  let checked := env before (OpInvoke ctl ["get"; "secret"; "regcred"] "") in
  let check :=
    EvOp (OpInvoke ctl ["get"; "secret"; "regcred"] "") t checked in
  let created :=
    env (before ++ [check; EvSetTrace Discard])%list
        (OpInvoke ctl (createRegcred "ll" pass) "") in
  let create :=
    EvOp (OpInvoke ctl (createRegcred "ll" pass) "") Discard created in
  let r := setupContainerRegistry env cfg ctx w in
  getCtl env w = (Ok ctl, w1) ->
  getSpkez env w1 = (Ok spkez, w2) ->
  env (events w2) (OpInvoke spkez ["get"; "ctr.lesiw.dev/auth"] "") = Ok raw ->
  env (events w2 ++ [fetch])%list (OpInvoke ctl ["apply"; "-f"; "-"] auth)
    = Ok o1 ->
  env (events w2 ++ [fetch; store])%list
      (OpInvoke ctl ["apply"; "-f"; "-"] (registryCfg cfg)) = Ok o2 ->
  match checked with
  | Ok _ =>
      r = (None, logged [fetch; store; registry; check] w2) /\
      Trace (snd r) = t /\
      forall evs : list Event,
        events (snd r) = (events w ++ evs)%list ->
        CallsFor "create" evs = [] /\ TraceWrites evs = []
  | Err _ =>
      fst r = match created with
              | Ok _ => None
              | Err e => Some (Errorf "could not store registry secret" e)
              end /\
      forall evs : list Event,
        events (snd r) = (events w ++ evs)%list ->
        CallsFor "create" evs = [create]
  end.
Proof.
  intros t pass fetch auth store registry before checked check created create
    r Hctl Hspkez Hget Hstore Hreg.
  pose proof (setupContainerRegistry_run env cfg ctx w ctl spkez w1 w2
                raw o1 o2 Hctl Hspkez Hget Hstore Hreg) as Hrun.
  cbv zeta in Hrun.
  fold t pass fetch auth store registry before checked check created create r
    in Hrun.
  apply getCtl_frame in Hctl as (Ht1&_&_&evs1&E1&F1).
  apply getSpkez_frame in Hspkez as (Ht2&_&_&evs2&E2&F2).
  rewrite Ht1 in F2. fold t in F1, F2.
  destruct checked as [o3|e].
  - rewrite Hrun. cbn [snd logged Trace events]. split; [done|].
    split; [subst t; congruence|].
    intros evs Hevs. rewrite E2, E1, <- !app_assoc in Hevs.
    apply app_inv_head in Hevs as <-.
    rewrite !CallsFor_app, !TraceWrites_app.
    rewrite !(CallsFor_setup t "create"), !(TraceWrites_setup t) by done.
    done.
  - rewrite Hrun. cbn [fst snd logged events]. split; [done|].
    intros evs Hevs. rewrite E2, E1, <- !app_assoc in Hevs.
    apply app_inv_head in Hevs as <-.
    rewrite !CallsFor_app, !(CallsFor_setup t "create") by done.
    by destruct created.
Qed.

Lemma setupContainerRegistry_check_witness :
  let w2 := snd (getSpkez okEnv (snd (getCtl okEnv verboseWorld))) in
  let r := setupContainerRegistry okEnv cfg0 Background verboseWorld in
  let pass := "fake-registry-password" in
  let fetch :=
    EvOp (OpInvoke spkez0 ["get"; "ctr.lesiw.dev/auth"] "") ShTrace
         (Ok (pass +:+ String newline "")) in
  let auth := Sprintf basicAuthCfg ["registry-auth-secret"; "ll"; pass] in
  let store :=
    EvOp (OpInvoke ctl0 ["apply"; "-f"; "-"] auth) ShTrace (Ok "") in
  let registry :=
    EvOp (OpInvoke ctl0 ["apply"; "-f"; "-"] (registryCfg cfg0)) ShTrace
         (Ok "") in
  let check :=
    EvOp (OpInvoke ctl0 ["get"; "secret"; "regcred"] "") ShTrace (Ok "") in
  r = (None, logged [fetch; store; registry; check] w2) /\
  Trace (snd r) = ShTrace /\
  forall evs : list Event,
    events (snd r) = (events verboseWorld ++ evs)%list ->
    CallsFor "create" evs = [] /\ TraceWrites evs = [].
Proof.
  intros w2 r pass fetch auth store registry check.
  assert (Hr1 : fst (getCtl okEnv verboseWorld) = Ok ctl0)
    by (vm_compute; reflexivity).
  assert (Hr2 : fst (getSpkez okEnv (snd (getCtl okEnv verboseWorld)))
                = Ok spkez0) by (vm_compute; reflexivity).
  subst w2.
  destruct (getCtl okEnv verboseWorld) as [r1 W1] eqn:Hctl.
  cbn [fst snd] in Hr1, Hr2 |- *. subst r1.
  destruct (getSpkez okEnv W1) as [r2 W2] eqn:Hspkez.
  cbn [fst snd] in Hr2 |- *. subst r2.
  exact (setupContainerRegistry_check okEnv cfg0 Background verboseWorld
           ctl0 spkez0 W1 W2 (pass +:+ String newline "") "" ""
           Hctl Hspkez eq_refl eq_refl eq_refl).
Defined.

(** The check fails with exit status 1 and the creation succeeds: nil. *)
Example check_failure_not_reported :
  fst (setupContainerRegistry (noRegcredEnv true) cfg0 Background
         verboseWorld) = None.
Proof. vm_compute. done. Qed.

(** ** Secrets in the manifests *)

Lemma append_empty_r (s : string) : s +:+ "" = s.
Proof.
  induction s as [|c s IH]; [reflexivity|].
  change (String c (s +:+ "") = String c s). by rewrite IH.
Qed.

(** Formatting with [secretCfg] and [basicAuthCfg] copies the operands as
    they are; the last one ends the manifest. *)
Lemma Sprintf_secretCfg name key value :
  Sprintf secretCfg [name; key; value] =
  "apiVersion: v1
kind: Secret
metadata:
  name: " +:+ name +:+ "
type: Opaque
stringData:
  " +:+ key +:+ ": " +:+ value.
Proof. cbn [Sprintf secretCfg basicAuthCfg]. by rewrite append_empty_r. Qed.

Lemma Sprintf_basicAuthCfg name user value :
  Sprintf basicAuthCfg [name; user; value] =
  "apiVersion: v1
kind: Secret
metadata:
  name: " +:+ name +:+ "
type: kubernetes.io/basic-auth
stringData:
  username: " +:+ user +:+ "
  password: " +:+ value.
Proof. cbn [Sprintf secretCfg basicAuthCfg]. by rewrite append_empty_r. Qed.

(** The [apply] invocations of [setupContainerRegistry], whatever the
    existence check and the creation answer. *)
Lemma setupContainerRegistry_applies env cfg ctx w ctl spkez w1 w2 raw :
  getCtl env w = (Ok ctl, w1) ->
  getSpkez env w1 = (Ok spkez, w2) ->
  (forall h, env h (OpInvoke spkez ["get"; "ctr.lesiw.dev/auth"] "")
             = Ok raw) ->
  (forall h args stdin,
     exists out, env h (OpInvoke ctl ("apply" :: args) stdin) = Ok out) ->
  exists o1 o2,
    forall evs : list Event,
      events (snd (setupContainerRegistry env cfg ctx w))
        = (events w ++ evs)%list ->
      CallsFor "apply" evs =
        [EvOp (OpInvoke ctl ["apply"; "-f"; "-"]
                 (Sprintf basicAuthCfg
                    ["registry-auth-secret"; "ll"; trimNewline raw]))
              (Trace w) (Ok o1);
         EvOp (OpInvoke ctl ["apply"; "-f"; "-"] (registryCfg cfg))
              (Trace w) (Ok o2)].
Proof.
  intros Hctl Hspkez Hget Happly.
  unfold setupContainerRegistry. unfold_m. rewrite Hctl, Hspkez.
  cbv beta iota zeta.
  apply getCtl_frame in Hctl as (Ht1&_&_&evs1&E1&F1).
  apply getSpkez_frame in Hspkez as (Ht2&_&_&evs2&E2&F2).
  rewrite Ht1 in F2. rewrite <- Ht1, <- Ht2.
  set (secret := Sprintf _ _).
  rewrite Hget. cbn [events Trace snd fst cmd_on cmd_args].
  env_ok Happly. env_ok Happly.
  exists o, o0.
  break_env; cbn [events Trace snd fst]; intros evs Hevs;
    new_events Hevs E1 E2;
    rewrite !CallsFor_app, !(CallsFor_setup (Trace w) "apply") by done;
    reflexivity.
Qed.

(** C10. The value [Call] hands back from the secrets machine goes into the
    applied manifests as it is: the cloudflare manifest is
    [Sprintf secretCfg] of the fixed name and key and the value, the
    basic-auth manifest [Sprintf basicAuthCfg] of the fixed name and user
    and the value, and both are the fixed text followed by the value,
    character for character. *)
Theorem secrets_embedded_verbatim env cfg ctx w ctl spkez w1 w2 raw :
  getCtl env w = (Ok ctl, w1) ->
  getSpkez env w1 = (Ok spkez, w2) ->
  (forall h key, env h (OpInvoke spkez ["get"; key] "") = Ok raw) ->
  (forall h args stdin,
     exists out, env h (OpInvoke ctl ("apply" :: args) stdin) = Ok out) ->
  let value := trimNewline raw in
  let cloudflare :=
    Sprintf secretCfg ["cert-manager-cloudflare-token"; "api-token"; value] in
  let basicAuth :=
    Sprintf basicAuthCfg ["registry-auth-secret"; "ll"; value] in
  (exists o1 o2 o3,
     forall evs : list Event,
       events (snd (setupCertManager env cfg ctx w)) = (events w ++ evs)%list ->
       CallsFor "apply" evs =
         [EvOp (OpInvoke ctl ["apply"; "-f"; certManagerURL] "")
               (Trace w) (Ok o1);
          EvOp (OpInvoke ctl ["apply"; "-f"; "-"] cloudflare)
               (Trace w) (Ok o2);
          EvOp (OpInvoke ctl ["apply"; "-f"; "-"] (issuerCfg cfg))
               (Trace w) (Ok o3)]) /\
  (exists o1 o2,
     forall evs : list Event,
       events (snd (setupContainerRegistry env cfg ctx w))
         = (events w ++ evs)%list ->
       CallsFor "apply" evs =
         [EvOp (OpInvoke ctl ["apply"; "-f"; "-"] basicAuth)
               (Trace w) (Ok o1);
          EvOp (OpInvoke ctl ["apply"; "-f"; "-"] (registryCfg cfg))
               (Trace w) (Ok o2)]) /\
  cloudflare =
    "apiVersion: v1
kind: Secret
metadata:
  name: cert-manager-cloudflare-token
type: Opaque
stringData:
  api-token: " +:+ value /\
  basicAuth =
    "apiVersion: v1
kind: Secret
metadata:
  name: registry-auth-secret
type: kubernetes.io/basic-auth
stringData:
  username: ll
  password: " +:+ value.
Proof.
  intros Hctl Hspkez Hget Happly. cbv zeta.
  split; [|split; [|split]].
  - destruct (setupCertManager_spec env cfg ctx w ctl spkez w1 w2 raw
                Hctl Hspkez (fun h => Hget h _) Happly)
      as (w'&o1&o2&o3&Hrun&Hev).
    exists o1, o2, o3. rewrite Hrun. cbn [snd]. intros evs Hevs.
    apply getCtl_frame in Hctl as (Ht1&_&_&evs1&E1&F1).
    apply getSpkez_frame in Hspkez as (_&_&_&evs2&E2&F2).
    rewrite Ht1 in F2.
    rewrite Hev, E2, E1, <- !app_assoc in Hevs.
    apply app_inv_head in Hevs as <-.
    rewrite !CallsFor_app, !(CallsFor_setup (Trace w) "apply") by done.
    reflexivity.
  - exact (setupContainerRegistry_applies env cfg ctx w ctl spkez w1 w2 raw
             Hctl Hspkez (fun h => Hget h _) Happly).
  - apply Sprintf_secretCfg.
  - apply Sprintf_basicAuthCfg.
Qed.

Lemma secrets_embedded_verbatim_witness :
  let value := trimNewline yamlRaw in
  let cloudflare :=
    Sprintf secretCfg ["cert-manager-cloudflare-token"; "api-token"; value] in
  let basicAuth :=
    Sprintf basicAuthCfg ["registry-auth-secret"; "ll"; value] in
  (exists o1 o2 o3,
     forall evs : list Event,
       events (snd (setupCertManager yamlEnv cfg0 Background initWorld))
         = (events initWorld ++ evs)%list ->
       CallsFor "apply" evs =
         [EvOp (OpInvoke ctl0 ["apply"; "-f"; certManagerURL] "")
               (Trace initWorld) (Ok o1);
          EvOp (OpInvoke ctl0 ["apply"; "-f"; "-"] cloudflare)
               (Trace initWorld) (Ok o2);
          EvOp (OpInvoke ctl0 ["apply"; "-f"; "-"] (issuerCfg cfg0))
               (Trace initWorld) (Ok o3)]) /\
  (exists o1 o2,
     forall evs : list Event,
       events (snd (setupContainerRegistry yamlEnv cfg0 Background initWorld))
         = (events initWorld ++ evs)%list ->
       CallsFor "apply" evs =
         [EvOp (OpInvoke ctl0 ["apply"; "-f"; "-"] basicAuth)
               (Trace initWorld) (Ok o1);
          EvOp (OpInvoke ctl0 ["apply"; "-f"; "-"] (registryCfg cfg0))
               (Trace initWorld) (Ok o2)]) /\
  cloudflare =
    "apiVersion: v1
kind: Secret
metadata:
  name: cert-manager-cloudflare-token
type: Opaque
stringData:
  api-token: " +:+ value /\
  basicAuth =
    "apiVersion: v1
kind: Secret
metadata:
  name: registry-auth-secret
type: kubernetes.io/basic-auth
stringData:
  username: ll
  password: " +:+ value.
Proof.
  apply (secrets_embedded_verbatim yamlEnv cfg0 Background initWorld
           ctl0 spkez0
           (snd (getCtl yamlEnv initWorld))
           (snd (getSpkez yamlEnv (snd (getCtl yamlEnv initWorld))))
           yamlRaw).
  - apply (run_value (getCtl yamlEnv) initWorld (Ok ctl0)).
    vm_compute. reflexivity.
  - apply (run_value (getSpkez yamlEnv) (snd (getCtl yamlEnv initWorld))
             (Ok spkez0)).
    vm_compute. reflexivity.
  - intros h key. reflexivity.
  - intros h args stdin. eexists. reflexivity.
Defined.

(** The line break and the YAML syntax of the value reach the manifest. *)
Example yaml_injected :
  Sprintf secretCfg
    ["cert-manager-cloudflare-token"; "api-token"; trimNewline yamlRaw] =
  "apiVersion: v1
kind: Secret
metadata:
  name: cert-manager-cloudflare-token
type: Opaque
stringData:
  api-token: token
admin: true # {not: escaped}".
Proof. reflexivity. Qed.

(** ** The run as one pass/fail unit *)

Lemma run_runSteps env cfg ctx w :
  run env cfg ctx w = runSteps (steps env cfg) ctx w.
Proof.
  unfold run, steps, runSteps, bind, ret, wrapWith.
  repeat match goal with
         | |- context [let (_, _) := ?s ctx ?w0 in _] =>
             destruct (s ctx w0) as [[?|] ?]; try reflexivity
         end.
Qed.

(** A list of steps either runs to its end, every step returning nil, or
    stops at the first step that returns an error, in the world that step
    left. *)
Lemma runSteps_outcome ss ctx w :
  (exists w', AllOk ctx ss w w' /\ runSteps ss ctx w = (None, w')) \/
  (exists pre msg s post e wmid w',
     ss = (pre ++ (msg, s) :: post)%list /\
     AllOk ctx pre w wmid /\
     s ctx wmid = (Some e, w') /\
     runSteps ss ctx w = (Some (wrapWith msg e), w')).
Proof.
  revert w. induction ss as [|[msg s] ss IH]; intros w.
  - left. exists w. split; [constructor|reflexivity].
  - cbn [runSteps]. unfold bind.
    destruct (s ctx w) as [[e|] w1] eqn:Hs.
    + right. exists [], msg, s, ss, e, w, w1.
      repeat split; [constructor|done].
    + destruct (IH w1) as [(w'&Hok&Hrun)|
                           (pre&msg'&s'&post&e&wmid&w'&->&Hok&Hs'&Hrun)].
      * left. exists w'. split; [by econstructor|done].
      * right. exists ((msg, s) :: pre), msg', s', post, e, wmid, w'.
        repeat split; [by econstructor|done|done].
Qed.

(** The deferred closures only remove temporary files. *)
Lemma runDeferred_events env ds w :
  exists cleanup : list Event,
    events (snd (runDeferred env ds w)) = (events w ++ cleanup)%list /\
    forallb isCleanup cleanup = true.
Proof.
  revert w. induction ds as [|[name] ds IH]; intros w.
  - exists []. by rewrite app_nil_r.
  - cbn [runDeferred]. unfold_m. cbv zeta. cbn [snd fst].
    match goal with
    | |- context [runDeferred env ds ?w1] =>
        destruct (IH w1) as (cleanup&E&F)
    end.
    eexists (_ :: cleanup). rewrite E. cbn [events].
    rewrite <- app_assoc. split; [reflexivity|done].
Qed.

Lemma defers_Run_events env w :
  exists cleanup : list Event,
    events (snd (defers_Run env w)) = (events w ++ cleanup)%list /\
    forallb isCleanup cleanup = true.
Proof.
  unfold defers_Run. unfold_m. cbv zeta. cbn [snd fst].
  match goal with
  | |- context [runDeferred env ?ds ?w1] =>
      destruct (runDeferred_events env ds w1) as (cleanup&E&F)
  end.
  exists cleanup. by rewrite E.
Qed.

(** [main], by the outcome of [run]. *)
Lemma main_unfold env cfg (verbose : bool) w :
  main env cfg verbose w =
  let w0 := if verbose then snd (setTrace ShTrace w) else w in
  match run env cfg Background w0 with
  | (Some e, w') =>
      (1%N, snd (defers_Run env (snd (Eprintln (error_string e) w'))))
  | (None, w') => (0%N, snd (defers_Run env w'))
  end.
Proof.
  unfold main, defers_Exit, bind, ret. destruct verbose; cbn [snd].
  - destruct (setTrace ShTrace w) as [[] w0]. cbn [snd].
    destruct (run env cfg Background w0) as [[e|] w'].
    + destruct (Eprintln _ w') as [[] w2]. cbn [snd].
      by destruct (defers_Run env w2) as [[] wf].
    + by destruct (defers_Run env w') as [[] wf].
  - destruct (run env cfg Background w) as [[e|] w'].
    + destruct (Eprintln _ w') as [[] w2]. cbn [snd].
      by destruct (defers_Run env w2) as [[] wf].
    + by destruct (defers_Run env w') as [[] wf].
Qed.

(** C8. [main] either runs all six steps, each returning nil, and exits
    with code 0; or it stops at the first step that returns an error: the
    steps after it are not run (the world is the one the failing step left,
    plus what follows), the error, wrapped in the message of that step, is
    printed on standard error, and the exit code is 1.  In both cases only
    the deferred removals of temporary files follow. *)
Theorem main_pass_fail env cfg (verbose : bool) w :
  let w0 := if verbose then snd (setTrace ShTrace w) else w in
  let code := fst (main env cfg verbose w) in
  let wf := snd (main env cfg verbose w) in
  (exists w' cleanup,
     AllOk Background (steps env cfg) w0 w' /\
     run env cfg Background w0 = (None, w') /\
     code = 0%N /\
     events wf = (events w' ++ cleanup)%list /\
     forallb isCleanup cleanup = true) \/
  (exists pre msg s post e wmid w' cleanup,
     steps env cfg = (pre ++ (msg, s) :: post)%list /\
     AllOk Background pre w0 wmid /\
     s Background wmid = (Some e, w') /\
     run env cfg Background w0 = (Some (wrapWith msg e), w') /\
     code = 1%N /\
     events wf =
       (events w' ++
        [EvPrint Stderr (error_string (wrapWith msg e))] ++ cleanup)%list /\
     forallb isCleanup cleanup = true).
Proof.
  cbv zeta. rewrite main_unfold. cbv zeta.
  set (w0 := if verbose then snd (setTrace ShTrace w) else w).
  destruct (runSteps_outcome (steps env cfg) Background w0)
    as [(w'&Hok&Hrun)|(pre&msg&s&post&e&wmid&w'&Hss&Hok&Hs&Hrun)];
    rewrite <- run_runSteps in Hrun; rewrite Hrun; cbn [fst snd].
  - left. destruct (defers_Run_events env w') as (cleanup&E&F).
    by exists w', cleanup.
  - right.
    destruct (defers_Run_events env
                (snd (Eprintln (error_string (wrapWith msg e)) w')))
      as (cleanup&E&F).
    exists pre, msg, s, post, e, wmid, w', cleanup.
    repeat split; try done.
    rewrite E. cbn [Eprintln log events snd]. unfold Eprintln, log.
    cbn [events snd]. by rewrite <- app_assoc.
Qed.

(** A run that passes and a run that fails at the second step. *)
Example main_passes :
  let r := main okEnv cfg0 true initWorld in
  fst r = 0%N /\
  List.filter (fun e => match e with EvPrint Stderr _ => true | _ => false end)
    (events (snd r)) = [].
Proof. vm_compute. done. Qed.

Example main_fails_at_k3s :
  let r := main curlFailsEnv cfg0 true initWorld in
  fst r = 1%N /\
  List.filter (fun e => match e with EvPrint Stderr _ => true | _ => false end)
    (events (snd r)) =
    [EvPrint Stderr
       "failed to install or update k3s: could not update k3s: exit status"] /\
  CallsFor "apply" (events (snd r)) = [].
Proof. vm_compute. done. Qed.

(** ** Installing spkez during the bootstrap *)

(** C7, as stated, fails on both bootstraps.  When [spkez --version] is not
    found, [getSpkez] installs once and returns its machine without looking
    spkez up again; when [which spkez] fails for another reason than
    absence, [runinit] attempts the install all the same. *)
Lemma bootstrap_counterexample :
  let modern := getSpkez bootstrapEnv initWorld in
  let legacy := Legacy.runinit bootstrapEnv initWorld in
  (is_not_found (ErrNotFound "spkez") = true /\
   fst modern = Ok spkez0 /\
   length (InvocationsOf installArgs (events (snd modern))) = 1 /\
   length (InvocationsOf versionArgs (afterInstall (events (snd modern))))
     = 0) /\
  (is_not_found (ErrIO "connection lost") = false /\
   length (InvocationsOf installArgs (events (snd legacy))) = 1).
Proof. vm_compute. done. Qed.

(** C7, amended.  [getSpkez] looks spkez up once; it installs exactly once
    when, and only when, the lookup fails with a not-found classification,
    and then does not look spkez up again; any other lookup failure is
    returned without an install.  [runinit] installs exactly once after any
    failure of its lookup, and looks spkez up exactly once more when the
    install succeeded.  Neither repeats a step. *)
Theorem bootstrap_installs_once env w :
  (let sh := Shell sysMachine ["go"; "spkez"] in
   forall evs : list Event,
     events (snd (spkezSetup env w)) = (events w ++ evs)%list ->
     length (InvocationsOf versionArgs evs) = 1 /\
     match env (events w) (OpInvoke sh versionArgs "") with
     | Ok _ =>
         InvocationsOf installArgs evs = [] /\
         fst (spkezSetup env w) = Ok (Sub sh ["spkez"])
     | Err e =>
         if is_not_found e then
           length (InvocationsOf installArgs evs) = 1 /\
           InvocationsOf versionArgs (afterInstall evs) = []
         else
           InvocationsOf installArgs evs = [] /\
           fst (spkezSetup env w) = Err (Errorf "error checking spkez" e)
     end) /\
  (forall evs : list Event,
     events (snd (Legacy.runinit env w)) = (events w ++ evs)%list ->
     match env (events w) (OpInvoke sysMachine whichArgs "") with
     | Ok _ =>
         InvocationsOf installArgs evs = [] /\
         length (InvocationsOf whichArgs evs) = 1
     | Err _ =>
         exists installed,
           InvocationsOf installArgs evs =
             [EvOp (OpInvoke sysMachine installArgs "") (Trace w) installed] /\
           match installed with
           | Ok _ => length (InvocationsOf whichArgs (afterInstall evs)) = 1
           | Err e' =>
               afterInstall evs = [] /\
               fst (Legacy.runinit env w) =
                 Some (Errorf "could not install spkez" e')
           end
     end).
Proof.
  split.
  - cbv zeta. unfold spkezSetup, NotFound, versionArgs. unfold_m.
    cbn [Handle app]. cbv zeta.
    destruct (env (events w) _) as [out|e] eqn:Hlookup; cbn [events snd fst].
    + intros evs Hevs. apply app_inv_head in Hevs as <-. by vm_compute.
    + destruct (is_not_found e) eqn:Hnf; cbn [events snd fst].
      * break_env; cbn [events snd fst]; intros evs Hevs;
          rewrite <- ?app_assoc in Hevs; apply app_inv_head in Hevs as <-;
          by vm_compute.
      * intros evs Hevs. apply app_inv_head in Hevs as <-. by vm_compute.
  - unfold Legacy.runinit, Legacy.fetchKey, Legacy.Get, Legacy.Run,
      Legacy.WithRunner, whichArgs.
    unfold_m. cbv zeta. cbn [events snd fst].
    destruct (env (events w) _) as [out|e] eqn:Hwhich; cbn [events snd fst].
    + break_env; cbn [events snd fst]; intros evs Hevs;
        rewrite <- ?app_assoc in Hevs; apply app_inv_head in Hevs as <-;
        cbn; rewrite ?andb_false_r; by cbn.
    + break_env; cbn [events snd fst]; intros evs Hevs;
        rewrite <- ?app_assoc in Hevs; apply app_inv_head in Hevs as <-;
        eexists; (split; [cbn; rewrite ?andb_false_r; reflexivity|]);
        cbn; rewrite ?andb_false_r; by cbn.
Qed.

(** ** Memoized construction of the machines *)

Lemma counts_app c (evs1 evs2 : list Event) :
  counts c (evs1 ++ evs2) = counts c evs1 + counts c evs2.
Proof. unfold counts. by rewrite List.filter_app, length_app. Qed.

Ltac own_effects :=
  split; [by intros []|];
  eexists; split;
  [cbn [events]; rewrite <- ?app_assoc; try reflexivity;
   symmetry; apply app_nil_r
  |intros [[]| | | |]; vm_compute; lia].

Lemma spkezSetup_own env w r w' :
  spkezSetup env w = (r, w') -> OwnEffects GSpkez w w'.
Proof.
  unfold spkezSetup. unfold_m. simpl.
  break_env; intros [= <- <-]; own_effects.
Qed.

Lemma k8sSetup_own env r0 w r w' :
  k8sSetup env (ret r0) w = (r, w') -> OwnEffects GK8s w w'.
Proof.
  unfold k8sSetup. unfold_m. destruct r0 as [spkez|e]; simpl.
  - break_env; intros [= <- <-]; own_effects.
  - intros [= <- <-]. own_effects.
Qed.

Lemma ctlSetup_own r0 w r w' :
  ctlSetup (ret r0) w = (r, w') -> OwnEffects GCtl w w'.
Proof.
  unfold ctlSetup. unfold_m. destruct r0; intros [= <- <-]; own_effects.
Qed.

Lemma OnceValues_cases g f w r w' :
  OnceValues g f w = (r, w') ->
  (onceCell g w = Some r /\ w' = w) \/
  (onceCell g w = None /\
   exists w1, f (snd (log (EvOnce g) w)) = (r, w1) /\
              w' = snd (setOnce g r w1)).
Proof.
  unfold OnceValues. destruct (onceCell g w) as [r0|] eqn:Hc.
  - intros [= <- <-]. by left.
  - unfold bind, ret. cbn [log snd].
    destruct (f _) as [r1 w1] eqn:Hf. cbn.
    intros [= <- <-]. right. split; [done|]. by exists w1.
Qed.

Lemma Grows_refl w : Grows w w.
Proof.
  split; [done|]. intros c. destruct (onceCell (owner c) w); simpl; lia.
Qed.

(** The nested getter calls come first in the wrapped functions. *)
Lemma k8sSetup_bind env get w :
  k8sSetup env get w =
  let (r, w1) := get w in k8sSetup env (ret r) w1.
Proof. unfold k8sSetup, bind, ret. by destruct (get w). Qed.

Lemma ctlSetup_bind get w :
  ctlSetup get w = let (r, w1) := get w in ctlSetup (ret r) w1.
Proof. unfold ctlSetup, bind, ret. by destruct (get w). Qed.

Lemma onceCell_setOnce g' g r w :
  onceCell g' (snd (setOnce g r w)) =
  if bool_decide (g' = g) then Some r else onceCell g' w.
Proof. by destruct g', g. Qed.

Lemma events_setOnce g r w : events (snd (setOnce g r w)) = events w.
Proof. by destruct g. Qed.

Lemma counts_mark c g :
  counts c [EvOnce g] + ownOps g c <=
  if bool_decide (owner c = g) then 1 else 0.
Proof. destruct g, c as [[]| | | |]; vm_compute; lia. Qed.

(** [sync.OnceValues] around a function that first lets the getters below
    [g] grow the world and then adds its own effects. *)
Lemma OnceValues_below g f :
  (forall w0 r w1, f w0 = (r, w1) ->
     exists wa, Below (rank g) w0 wa /\ OwnEffects g wa w1) ->
  forall w r w', OnceValues g f w = (r, w') ->
    Below (S (rank g)) w w' /\ onceCell g w' = Some r.
Proof.
  intros Hf w r w' H.
  apply OnceValues_cases in H as [[Hc ->]|(Hc&w1&Hrun&->)].
  - split; [|done]. split; [apply Grows_refl|done].
  - apply Hf in Hrun as (wa&[[Hmono Hcount] Hkeep]&Hcells&evs&E&Hown).
    assert (Hg : onceCell g wa = None).
    { rewrite Hkeep by lia. by destruct g. }
    split; [split; [split|]|].
    + intros g' x Hx. rewrite onceCell_setOnce. case_bool_decide as Hgg.
      * subst g'. congruence.
      * rewrite Hcells. apply Hmono. by destruct g'.
    + intros c. specialize (Hcount c). specialize (Hown c).
      pose proof (counts_mark c g) as Hmark.
      rewrite events_setOnce, E, counts_app.
      replace (counts c (events (snd (log (EvOnce g) w))))
        with (counts c (events w) + counts c [EvOnce g]) in Hcount
        by (cbn [log snd events]; by rewrite counts_app).
      rewrite onceCell_setOnce.
      replace (onceCell (owner c) (snd (log (EvOnce g) w)))
        with (onceCell (owner c) w) in Hcount by (by destruct (owner c)).
      case_bool_decide as Hoc.
      * rewrite Hoc in *. rewrite Hg, Hc in *. cbn [filled] in *. lia.
      * rewrite Hcells. lia.
    + intros g' Hr. rewrite onceCell_setOnce. case_bool_decide as Hgg.
      * subst g'. lia.
      * rewrite Hcells, Hkeep by lia. by destruct g'.
    + rewrite onceCell_setOnce. by rewrite bool_decide_eq_true_2.
Qed.

Lemma Below_refl n w : Below n w w.
Proof. split; [apply Grows_refl|done]. Qed.

Lemma getSpkez_below env w r w' :
  getSpkez env w = (r, w') -> Below 1 w w' /\ onceCell GSpkez w' = Some r.
Proof.
  apply (OnceValues_below GSpkez). intros w0 r0 w1 H.
  exists w0. split; [apply Below_refl|]. by apply spkezSetup_own in H.
Qed.

Lemma getK8s_below env w r w' :
  getK8s env w = (r, w') -> Below 2 w w' /\ onceCell GK8s w' = Some r.
Proof.
  apply (OnceValues_below GK8s). intros w0 r0 w1.
  rewrite k8sSetup_bind. destruct (getSpkez env w0) as [r1 wa] eqn:Hs.
  intros H. exists wa. split; [by apply getSpkez_below in Hs as [? _]|].
  by apply k8sSetup_own in H.
Qed.

Lemma getCtl_below env w r w' :
  getCtl env w = (r, w') -> Below 3 w w' /\ onceCell GCtl w' = Some r.
Proof.
  apply (OnceValues_below GCtl). intros w0 r0 w1.
  rewrite ctlSetup_bind. destruct (getK8s env w0) as [r1 wa] eqn:Hs.
  intros H. exists wa. split; [by apply getK8s_below in Hs as [? _]|].
  by apply ctlSetup_own in H.
Qed.

Lemma getter_grows env g w r w' :
  getter env g w = (r, w') -> Grows w w' /\ onceCell g w' = Some r.
Proof.
  destruct g; cbn [getter]; intros H.
  - by apply getSpkez_below in H as [[? _] ?].
  - by apply getK8s_below in H as [[? _] ?].
  - by apply getCtl_below in H as [[? _] ?].
Qed.

Lemma Grows_trans w1 w2 w3 : Grows w1 w2 -> Grows w2 w3 -> Grows w1 w3.
Proof.
  intros [M1 C1] [M2 C2]. split; [by eauto|].
  intros c. specialize (C1 c). specialize (C2 c).
  destruct (onceCell (owner c) w1) as [x|] eqn:H1.
  - rewrite (M1 _ _ H1) in *. rewrite (M2 _ _ (M1 _ _ H1)) in *.
    cbn [filled] in *. lia.
  - destruct (onceCell (owner c) w2) as [y|] eqn:H2.
    + rewrite (M2 _ _ H2) in *. cbn [filled] in *. lia.
    + destruct (onceCell (owner c) w3); cbn [filled] in *; lia.
Qed.

(** Any number of accesses, one after the other. *)
Lemma accesses_grow env gs w rs w' :
  accesses env gs w = (rs, w') ->
  Grows w w' /\ Forall2 (fun g r => onceCell g w' = Some r) gs rs.
Proof.
  revert w rs w'. induction gs as [|g gs IH]; intros w rs w'.
  - intros [= <- <-]. split; [apply Grows_refl|constructor].
  - cbn [accesses]. unfold bind, ret.
    destruct (getter env g w) as [r w1] eqn:Hg.
    destruct (accesses env gs w1) as [rs' w2] eqn:Hrest.
    intros [= <- <-].
    apply getter_grows in Hg as [G1 Hr].
    apply IH in Hrest as [G2 Hrs].
    split; [by eapply Grows_trans|].
    constructor; [by apply G2|done].
Qed.

(** ** Concurrent accesses to the memoized machines *)

Lemma dep_rank g g' : dep g = Some g' -> rank g = S (rank g').
Proof. by destruct g; intros [= <-]. Qed.

Lemma chain_rank goal k g :
  chain goal k -> awaits goal k = Some g ->
  forall g', AWait g' ∈ k -> rank g < rank g'.
Proof.
  revert g. induction k as [|a k IH]; intros g Hc Ha g' Hin.
  - by apply elem_of_nil in Hin.
  - destruct a; try done. cbn in Hc, Ha. destruct Hc as [Hk Hc].
    apply dep_rank in Ha.
    apply elem_of_cons in Hin as [[= ->]|Hin]; [lia|].
    specialize (IH _ Hc Hk _ Hin). lia.
Qed.

Lemma chain_waits goal k a : chain goal k -> a ∈ k -> exists g, a = AWait g.
Proof.
  induction k as [|b k IH]; intros Hc Hin.
  - by apply elem_of_nil in Hin.
  - destruct b; try done. destruct Hc as [_ Hc].
    apply elem_of_cons in Hin as [->|Hin]; eauto.
Qed.

Lemma wfThread_mono goal w w' th :
  (forall g x, onceCell g w = Some x -> onceCell g w' = Some x) ->
  wfThread goal w th -> wfThread goal w' th.
Proof.
  intros Hm. destruct th as [[r|] k]; [|done].
  intros [Hc (g&Ha&Hr)]. split; [done|]. exists g. eauto.
Qed.

Lemma inv_zero_at gs s i th c :
  Inv gs s -> threads s !! i = Some th ->
  onceCell (owner c) (world s) = None ->
  counts c (events (world s)) = 0 \/
  (c = COnce (owner c) /\
   (AWait (owner c) ∈ th.2 \/
    exists j thj, j <> i /\ threads s !! j = Some thj /\
                  AWait (owner c) ∈ thj.2)).
Proof.
  intros HI Hi Hc. destruct (inv_zero _ _ HI c Hc) as [?|[E (j&thj&Hj&Hin)]];
    [by left|right]. split; [done|].
  destruct (decide (j = i)) as [->|Hne].
  - left. congruence.
  - right. eauto.
Qed.

Lemma Inv_update gs s i goal th th' w' h' g0 :
  Inv gs s ->
  gs !! i = Some goal -> threads s !! i = Some th ->
  (forall g x, onceCell g (world s) = Some x -> onceCell g w' = Some x) ->
  wfThread goal w' th' ->
  (forall g, h' g = holder s g \/
             g = g0 /\ (holder s g = None \/ holder s g = Some i)) ->
  (forall g, holds g th' -> h' g = Some i) ->
  (forall g, onceCell g w' = onceCell g (world s) \/ g = g0 /\ holds g0 th) ->
  (forall g, AWait g ∈ th'.2 -> onceCell g w' = None) ->
  (forall c, counts c (events w') <= 1) ->
  (forall c, onceCell (owner c) w' = None ->
     counts c (events w') = 0 \/
     (c = COnce (owner c) /\
      (AWait (owner c) ∈ th'.2 \/
       exists j thj, j <> i /\ threads s !! j = Some thj /\
                     AWait (owner c) ∈ thj.2))) ->
  Inv gs (mkSys w' h' (<[i := th']> (threads s))).
Proof.
  intros HI Hg Hi Hmono Hwf Hh Hown Hcell Hwait Hcount Hzero.
  pose proof (lookup_lt_Some _ _ _ Hi) as Hlt.
  split; cbn [world holder threads].
  - rewrite length_insert. apply HI.
  - intros j g thj Hgj Hj.
    apply list_lookup_insert_Some in Hj as [(<-&<-&_)|[Hne Hj]].
    + congruence.
    + eapply wfThread_mono; [done|]. by eapply (inv_wf _ _ HI).
  - intros j g thj Hj Hholds.
    apply list_lookup_insert_Some in Hj as [(<-&<-&_)|[Hne Hj]]; [by auto|].
    pose proof (inv_lock _ _ HI _ _ _ Hj Hholds) as Hold.
    destruct (Hh g) as [->|[_ [E|E]]]; [done|congruence|congruence].
  - intros j g thj Hj Hin.
    apply list_lookup_insert_Some in Hj as [(<-&<-&_)|[Hne Hj]]; [by auto|].
    destruct (Hcell g) as [->|[-> Hheld]].
    + by eapply (inv_wait _ _ HI).
    + pose proof (inv_lock _ _ HI _ _ _ Hi Hheld).
      assert (holder s g0 = Some j)
        by (eapply (inv_lock _ _ HI); [done|by right]).
      congruence.
  - done.
  - intros c Hc. destruct (Hzero c Hc) as [?|[E [Hin|(j&thj&Hne&Hj&Hin)]]];
      [by left|right..]; (split; [done|]).
    + exists i, th'. split; [|done]. by apply list_lookup_insert_eq.
    + exists j, thj. split; [|done]. by rewrite list_lookup_insert_ne.
Qed.

Lemma onceCell_log g e w : onceCell g (snd (log e w)) = onceCell g w.
Proof. by destruct g. Qed.

Lemma counts_once c g :
  (c = COnce g /\ counts c [EvOnce g] = 1) \/
  (c <> COnce g /\ counts c [EvOnce g] = 0).
Proof. destruct g, c as [[]| | | |]; (by left) || (by right). Qed.

Lemma setHolder_eq g v h : setHolder g v h g = v.
Proof. unfold setHolder. by rewrite bool_decide_eq_true_2. Qed.

Lemma setHolder_ne g g' v h : g' <> g -> setHolder g v h g' = h g'.
Proof. intros. unfold setHolder. by rewrite bool_decide_eq_false_2. Qed.

(** A thread moves on without touching the world or a mutex. *)
Lemma Inv_move gs s i goal r a k th' :
  Inv gs s ->
  gs !! i = Some goal -> threads s !! i = Some (r, a :: k) ->
  wfThread goal (world s) th' ->
  th'.2 = k \/ (exists a', th'.2 = a' :: k /\ forall g, a' <> AWait g /\
                                                a' <> AHeld g) ->
  (forall g, a <> AWait g) ->
  Inv gs (mkSys (world s) (holder s) (<[i := th']> (threads s))).
Proof.
  intros HI Hg Hi Hwf Hk Ha.
  assert (Hsub : forall b, b ∈ th'.2 -> (forall g, b = AWait g \/ b = AHeld g -> b ∈ k)).
  { intros b Hb g Hbg. destruct Hk as [E|(a'&E&Ha')]; rewrite E in Hb;
      [done|].
    apply elem_of_cons in Hb as [->|?]; [|done].
    destruct (Ha' g). by destruct Hbg. }
  eapply (Inv_update _ _ _ _ _ _ _ _ goal); try done.
  - by left.
  - intros g [Hh|Hh]; eapply (inv_lock _ _ HI _ _ _ Hi); [left|right];
      cbn [snd]; apply elem_of_cons; right; eapply Hsub; eauto.
  - by left.
  - intros g Hin. eapply (inv_wait _ _ HI _ _ _ Hi). cbn [snd].
    apply elem_of_cons; right. eapply Hsub; eauto.
  - apply HI.
  - intros c Hc.
    destruct (inv_zero_at _ _ _ _ c HI Hi Hc) as [?|[E [Hin|?]]];
      [by left|right; split; [done|]..]; [left|by right].
    cbn [snd] in Hin. apply elem_of_cons in Hin as [Hin|Hin].
    + by destruct (Ha (owner c)).
    + destruct Hk as [->|(a'&->&_)]; [done|]. apply elem_of_cons. by right.
Qed.

(** The thread that holds the mutex of [g] stores the value and unlocks. *)
Lemma Inv_finish gs s i goal r0 a k g r w2 (evs : list Event) :
  Inv gs s ->
  gs !! i = Some goal -> threads s !! i = Some (r0, a :: k) ->
  a = AHeld g \/ a = AWait g ->
  awaits goal k = Some g -> chain goal k ->
  onceCell g (world s) = None ->
  (forall g', onceCell g' w2 = onceCell g' (world s)) ->
  events w2 = (events (world s) ++ evs)%list ->
  (forall c, counts c evs <= if bool_decide (owner c = g) then 1 else 0) ->
  counts (COnce g) (events (world s)) + counts (COnce g) evs <= 1 ->
  Inv gs (mkSys (snd (setOnce g r w2)) (setHolder g None (holder s))
            (<[i := (Some r, k)]> (threads s))).
Proof.
  intros HI Hg Hi Ha Haw Hch Hcell Hcells Hev Hevs Honce.
  assert (Hheld : holds g (r0, a :: k)).
  { destruct Ha as [->| ->]; [left|right]; apply elem_of_cons; by left. }
  pose proof (inv_lock _ _ HI _ _ _ Hi Hheld) as Hi_holds.
  assert (Hrank : forall g', AWait g' ∈ k -> g' <> g).
  { intros g' Hin ->. pose proof (chain_rank _ _ _ Hch Haw _ Hin). lia. }
  eapply (Inv_update _ _ _ _ _ _ _ _ g); try done.
  - intros g' x Hx. rewrite onceCell_setOnce. case_bool_decide as E.
    + congruence.
    + by rewrite Hcells.
  - split; [done|]. exists g. split; [done|].
    rewrite onceCell_setOnce. by rewrite bool_decide_eq_true_2.
  - intros g'. destruct (decide (g' = g)) as [->|Hne].
    + right. auto.
    + left. by apply setHolder_ne.
  - intros g' [Hin|Hin]; cbn [snd] in Hin.
    + destruct (chain_waits _ _ _ Hch Hin) as [? [=]].
    + rewrite setHolder_ne by auto.
      eapply (inv_lock _ _ HI _ _ _ Hi). right. apply elem_of_cons. by right.
  - intros g'. rewrite onceCell_setOnce. case_bool_decide as E.
    + subst g'. by right.
    + left. apply Hcells.
  - intros g' Hin. cbn [snd] in Hin. rewrite onceCell_setOnce.
    rewrite bool_decide_eq_false_2 by auto. rewrite Hcells.
    eapply (inv_wait _ _ HI _ _ _ Hi). apply elem_of_cons. by right.
  - intros c. rewrite events_setOnce, Hev, counts_app.
    specialize (Hevs c). case_bool_decide as E.
    + destruct (counts_once c g) as [[-> _]|[Hc _]]; [done|].
      rewrite <- E in Hcell.
      destruct (inv_zero _ _ HI c Hcell) as [->|[Ec _]]; [lia|].
      rewrite E in Ec. done.
    + pose proof (inv_count _ _ HI c). lia.
  - intros c. rewrite onceCell_setOnce, events_setOnce, Hev, counts_app.
    specialize (Hevs c). case_bool_decide as E; [done|].
    rewrite Hcells. intros Hc.
    replace (counts c evs) with 0 by lia. rewrite Nat.add_0_r.
    destruct (inv_zero_at _ _ _ _ c HI Hi Hc) as [?|[Ec [Hin|?]]];
      [by left|right; split; [done|]..]; [left|by right].
    cbn [snd] in *. apply elem_of_cons in Hin as [Hin|Hin]; [|done].
    destruct Ha as [->| ->]; [done|]. congruence.
Qed.

(** The function of a [Once] whose mutex is held with the flag unset has
    not started. *)
Lemma held_unmarked gs s i goal k g :
  Inv gs s ->
  threads s !! i = Some (None, AHeld g :: k) ->
  awaits goal k = Some g -> chain goal k ->
  onceCell g (world s) = None ->
  counts (COnce g) (events (world s)) = 0.
Proof.
  intros HI Hi Haw Hch Hcell.
  destruct (inv_zero_at _ _ _ _ (COnce g) HI Hi Hcell)
    as [?|[_ [Hin|(j&thj&Hne&Hj&Hin)]]]; [done|..]; cbn [owner snd] in *.
  - apply elem_of_cons in Hin as [[=]|Hin].
    pose proof (chain_rank _ _ _ Hch Haw _ Hin). lia.
  - assert (holder s g = Some i).
    { eapply (inv_lock _ _ HI _ _ _ Hi). left. apply elem_of_cons. by left. }
    assert (holder s g = Some j).
    { eapply (inv_lock _ _ HI _ _ _ Hj). by right. }
    congruence.
Qed.

Lemma ownOps_le g c :
  ownOps g c <= if bool_decide (owner c = g) then 1 else 0.
Proof. pose proof (counts_mark c g). lia. Qed.

(** Every step keeps the invariant. *)
Lemma stepThread_Inv env gs i s s' :
  Inv gs s -> stepThread env i s = Some s' -> Inv gs s'.
Proof.
  intros HI. unfold stepThread.
  destruct (threads s !! i) as [[r k]|] eqn:Hi; [|done].
  assert (is_Some (gs !! i)) as [goal Hg].
  { apply lookup_lt_is_Some. rewrite <- (inv_len _ _ HI).
    by eapply lookup_lt_Some. }
  pose proof (inv_wf _ _ HI _ _ _ Hg Hi) as Hwf.
  destruct r as [r|]; destruct k as [|[g|g|g|g] k]; try done.
  - (* the nested getter returned to a waiting function *)
    destruct Hwf as [[Haw Hch] _]. cbn in Haw.
    assert (Hcell : onceCell g (world s) = None).
    { eapply (inv_wait _ _ HI _ _ _ Hi). apply elem_of_cons. by left. }
    destruct g; [done|..].
    + destruct (k8sSetup env (ret r) (world s)) as [r' w2] eqn:Hrun.
      intros [= <-]. apply k8sSetup_own in Hrun as (Hcells&evs&Hev&Hevs).
      apply (Inv_finish gs s i goal (Some r) (AWait GK8s) k GK8s r' w2 evs
               HI Hg Hi); [by right|done..| |].
      * intros c. etrans; [apply Hevs|apply ownOps_le].
      * specialize (Hevs (COnce GK8s)). cbn in Hevs.
        pose proof (inv_count _ _ HI (COnce GK8s)). lia.
    + destruct (ctlSetup (ret r) (world s)) as [r' w2] eqn:Hrun.
      intros [= <-]. apply ctlSetup_own in Hrun as (Hcells&evs&Hev&Hevs).
      apply (Inv_finish gs s i goal (Some r) (AWait GCtl) k GCtl r' w2 evs
               HI Hg Hi); [by right|done..| |].
      * intros c. etrans; [apply Hevs|apply ownOps_le].
      * specialize (Hevs (COnce GCtl)). cbn in Hevs.
        pose proof (inv_count _ _ HI (COnce GCtl)). lia.
  - (* reading the flag *)
    destruct Hwf as [(g'&[= <-]&Haw) Hch].
    destruct (onceCell g (world s)) as [r|] eqn:Hcell; intros [= <-].
    + apply (Inv_move gs s i goal None (ACall g) k (Some r, k));
        [done|done|done| |by left|done].
      split; [done|]. by exists g.
    + apply (Inv_move gs s i goal None (ACall g) k (None, ALock g :: k));
        [done|done|done| | |done].
      * split; [|done]. by exists g.
      * right. exists (ALock g). by split.
  - (* locking *)
    destruct Hwf as [(g'&[= <-]&Haw) Hch].
    destruct (holder s g) as [j|] eqn:Hh; [done|]. intros [= <-].
    eapply (Inv_update gs s i goal _ _ _ _ g HI Hg Hi).
    + done.
    + split; [|done]. by exists g.
    + intros g'. destruct (decide (g' = g)) as [->|Hne].
      * right. auto.
      * left. by apply setHolder_ne.
    + intros g' Hheld. destruct (decide (g' = g)) as [->|Hne].
      * apply setHolder_eq.
      * rewrite setHolder_ne by done.
        eapply (inv_lock _ _ HI _ _ _ Hi).
        destruct Hheld as [Hin|Hin]; [left|right]; cbn [snd] in *;
          apply elem_of_cons in Hin as [[=]|Hin]; try done;
          apply elem_of_cons; by right.
    + by left.
    + intros g' Hin. eapply (inv_wait _ _ HI _ _ _ Hi). cbn [snd] in *.
      apply elem_of_cons in Hin as [[=]|Hin]. apply elem_of_cons; by right.
    + apply HI.
    + intros c Hc.
      destruct (inv_zero_at _ _ _ _ c HI Hi Hc) as [?|[E [Hin|?]]];
        [by left|right; split; [done|]..]; [left|by right].
      cbn [snd] in *. apply elem_of_cons in Hin as [[=]|Hin].
      apply elem_of_cons; by right.
  - (* holding the mutex *)
    destruct Hwf as [(g'&[= <-]&Haw) Hch].
    destruct (onceCell g (world s)) as [r|] eqn:Hcell.
    { (* another thread has run the function meanwhile *)
      intros [= <-].
      assert (Hrank : forall g', AWait g' ∈ k -> g' <> g).
      { intros g' Hin ->. pose proof (chain_rank _ _ _ Hch Haw _ Hin). lia. }
      assert (holder s g = Some i).
      { eapply (inv_lock _ _ HI _ _ _ Hi). left. apply elem_of_cons. by left. }
      eapply (Inv_update gs s i goal _ _ _ _ g HI Hg Hi).
      - done.
      - split; [done|]. by exists g.
      - intros g'. destruct (decide (g' = g)) as [->|Hne].
        + right. auto.
        + left. by apply setHolder_ne.
      - intros g' [Hin|Hin]; cbn [snd] in Hin.
        + destruct (chain_waits _ _ _ Hch Hin) as [? [=]].
        + rewrite setHolder_ne by auto.
          eapply (inv_lock _ _ HI _ _ _ Hi). right. apply elem_of_cons.
          by right.
      - by left.
      - intros g' Hin. eapply (inv_wait _ _ HI _ _ _ Hi). cbn [snd] in *.
        apply elem_of_cons; by right.
      - apply HI.
      - intros c Hc.
        destruct (inv_zero_at _ _ _ _ c HI Hi Hc) as [?|[E [Hin|?]]];
          [by left|right; split; [done|]..]; [left|by right].
        cbn [snd] in *. by apply elem_of_cons in Hin as [[=]|Hin]. }
    pose proof (held_unmarked _ _ _ _ _ _ HI Hi Haw Hch Hcell) as Hun.
    cbv zeta. destruct (dep g) as [g'|] eqn:Hdep.
    + (* the function starts by calling the getter below *)
      intros [= <-].
      eapply (Inv_update gs s i goal _ _ (snd (log (EvOnce g) (world s))) _
                g HI Hg Hi).
      * intros g0 x. by rewrite onceCell_log.
      * split; [by exists g'|]. by split.
      * by left.
      * intros g0 Hheld. eapply (inv_lock _ _ HI _ _ _ Hi).
        destruct Hheld as [Hin|Hin]; cbn [snd] in *.
        -- apply elem_of_cons in Hin as [[=]|Hin].
           apply elem_of_cons in Hin as [[=]|Hin].
           left. apply elem_of_cons; by right.
        -- apply elem_of_cons in Hin as [[=]|Hin].
           apply elem_of_cons in Hin as [[= ->]|Hin].
           ++ left. apply elem_of_cons; by left.
           ++ right. apply elem_of_cons; by right.
      * intros g0. left. apply onceCell_log.
      * intros g0 Hin. rewrite onceCell_log. cbn [snd] in *.
        apply elem_of_cons in Hin as [[=]|Hin].
        apply elem_of_cons in Hin as [[= ->]|Hin]; [done|].
        eapply (inv_wait _ _ HI _ _ _ Hi). apply elem_of_cons; by right.
      * intros c. cbn [log snd events]. rewrite counts_app.
        destruct (counts_once c g) as [[-> ->]|[_ ->]]; [lia|].
        pose proof (inv_count _ _ HI c). lia.
      * intros c. rewrite onceCell_log. cbn [log snd events].
        rewrite counts_app. intros Hc.
        destruct (counts_once c g) as [[-> _]|[Hne ->]].
        -- right. split; [done|]. left. cbn.
           apply elem_of_cons; right. apply elem_of_cons; by left.
        -- rewrite Nat.add_0_r.
           destruct (inv_zero_at _ _ _ _ c HI Hi Hc) as [?|[E [Hin|?]]];
             [by left|right; split; [done|]..]; [left|by right].
           cbn [snd] in *. apply elem_of_cons in Hin as [[=]|Hin].
           apply elem_of_cons; right. apply elem_of_cons; by right.
    + (* the function of getSpkez calls no getter *)
      destruct g; try done.
      destruct (spkezSetup env _) as [r w2] eqn:Hrun.
      intros [= <-]. apply spkezSetup_own in Hrun as (Hcells&evs&Hev&Hevs).
      apply (Inv_finish gs s i goal None (AHeld GSpkez) k GSpkez r w2
               ([EvOnce GSpkez] ++ evs) HI Hg Hi); [by left|done..| | | |].
      * intros g'. by rewrite Hcells, onceCell_log.
      * rewrite Hev. cbn [log snd events]. by rewrite <- app_assoc.
      * intros c. rewrite counts_app. specialize (Hevs c).
        pose proof (counts_mark c GSpkez). lia.
      * rewrite counts_app. specialize (Hevs (COnce GSpkez)).
        cbn [ownOps] in Hevs. rewrite Hun.
        destruct (counts_once (COnce GSpkez) GSpkez) as [[_ ->]|[? _]];
          [lia|done].
Qed.

Lemma initSys_Inv gs w : Fresh w -> Inv gs (initSys gs w).
Proof.
  intros [Hcells Hcounts]. split; cbn [initSys world holder threads].
  - by rewrite length_map.
  - intros i g th Hg. rewrite list_lookup_fmap, Hg. intros [= <-].
    split; [by exists g|done].
  - intros i g th. rewrite list_lookup_fmap.
    destruct (gs !! i); [|done]. intros [= <-] [Hin|Hin]; cbn in Hin;
      by apply elem_of_cons in Hin as [[=]|Hin%elem_of_nil].
  - intros i g th _ _. apply Hcells.
  - intros c. rewrite Hcounts. lia.
  - intros c _. left. apply Hcounts.
Qed.

Lemma runSchedule_Inv env gs sched s :
  Inv gs s -> Inv gs (runSchedule env sched s).
Proof.
  revert s. induction sched as [|i sched IH]; intros s HI; [done|].
  cbn [runSchedule]. apply IH.
  destruct (stepThread env i s) as [s'|] eqn:Hstep; [|done].
  by eapply stepThread_Inv.
Qed.

(** What a returned thread observed is the content of the memo cell of its
    getter. *)
Lemma returned_cached gs s i g r :
  Inv gs s -> gs !! i = Some g -> returned s i = Some r ->
  onceCell g (world s) = Some r.
Proof.
  intros HI Hg. unfold returned.
  destruct (threads s !! i) as [[[r'|] [|a k]]|] eqn:Hi; try done.
  intros [= ->].
  by destruct (inv_wf _ _ HI _ _ _ Hg Hi) as [_ (g'&[= <-]&Hr)].
Qed.

(** C1. The set-up of the memoized machines runs at most once per process.
    From a world in which no machine has been constructed and nothing has
    been counted, after any list [gs] of accesses to [getSpkez], [getK8s]
    and [getCtl] made one after the other, and in every state that threads
    making these accesses reach under any interleaving of their steps:
    each wrapped function has run at most once, the availability check of
    spkez, its installation, the retrieval of the SSH key and the creation
    of the key file have each happened at most once, and the value an
    access returned, a machine or a construction error, is the one cached
    for its getter, so that all accesses to a getter observe the same
    value. *)
Theorem machines_built_once env gs w :
  Fresh w ->
  (let (rs, w') := accesses env gs w in
   (forall c, counts c (events w') <= 1) /\
   Forall2 (fun g r => onceCell g w' = Some r) gs rs) /\
  (forall sched,
     let s := runSchedule env sched (initSys gs w) in
     (forall c, counts c (events (world s)) <= 1) /\
     (forall i g r,
        gs !! i = Some g -> returned s i = Some r ->
        onceCell g (world s) = Some r) /\
     (forall i j g ri rj,
        gs !! i = Some g -> gs !! j = Some g ->
        returned s i = Some ri -> returned s j = Some rj -> ri = rj)).
Proof.
  intros HF. split.
  - destruct (accesses env gs w) as [rs w'] eqn:Hacc.
    apply accesses_grow in Hacc as [[_ Hcount] Hrs]. split; [|done].
    intros c. specialize (Hcount c). destruct HF as [Hcells Hzero].
    rewrite Hzero, Hcells in Hcount.
    destruct (onceCell (owner c) w'); cbn [filled] in Hcount; lia.
  - intros sched s.
    assert (HI : Inv gs s) by (apply runSchedule_Inv; by apply initSys_Inv).
    split; [apply HI|]. split.
    + intros i g r. by apply returned_cached.
    + intros i j g ri rj Hi Hj Hri Hrj.
      pose proof (returned_cached _ _ _ _ _ HI Hi Hri).
      pose proof (returned_cached _ _ _ _ _ HI Hj Hrj). congruence.
Qed.


Lemma machines_built_once_witness :
  Fresh initWorld /\
  (let (rs, w') := accesses okEnv [GCtl; GK8s; GCtl; GSpkez] initWorld in
   (forall c, counts c (events w') <= 1) /\
   Forall2 (fun g r => onceCell g w' = Some r)
     [GCtl; GK8s; GCtl; GSpkez] rs) /\
  (forall sched,
     let s := runSchedule okEnv sched
                (initSys [GCtl; GK8s; GCtl; GSpkez] initWorld) in
     (forall c, counts c (events (world s)) <= 1) /\
     (forall i g r,
        [GCtl; GK8s; GCtl; GSpkez] !! i = Some g ->
        returned s i = Some r ->
        onceCell g (world s) = Some r) /\
     (forall i j g ri rj,
        [GCtl; GK8s; GCtl; GSpkez] !! i = Some g ->
        [GCtl; GK8s; GCtl; GSpkez] !! j = Some g ->
        returned s i = Some ri -> returned s j = Some rj -> ri = rj)).
Proof.
  assert (HF : Fresh initWorld).
  { split; [intros []; reflexivity|intros [[]| | | |]; reflexivity]. }
  split; [exact HF|].
  pose proof (machines_built_once okEnv [GCtl; GK8s; GCtl; GSpkez]
                initWorld HF) as H.
  exact H.
Defined.

(** Two threads after [getCtl] and one after [getK8s], interleaved: the
    third thread runs the function of [getK8s] while the first one, holding
    the mutex of [getCtl], waits at the mutex of [getK8s] and the second
    one at the mutex of [getCtl]; all return the cached machines, and every
    effect has happened once (the installation of spkez not at all). *)
Example interleaved_accesses :
  let s := runSchedule okEnv
             [0; 1; 0; 1; 1; 0; 2; 0; 2; 0; 2; 1; 0; 2; 2; 2; 2; 0; 0; 0; 1; 1]
             (initSys [GCtl; GCtl; GK8s] initWorld) in
  returned s 0 = Some (Ok ctl0) /\ returned s 1 = Some (Ok ctl0) /\
  returned s 2 = Some (Ok k8s0) /\
  List.map (fun c => counts c (events (world s)))
    [COnce GSpkez; COnce GK8s; COnce GCtl; CLookup; CInstall; CKeyFetch;
     CTempFile] = [1; 1; 1; 1; 0; 1; 1].
Proof. vm_compute. repeat split. Qed.

(** ** Threads that run alone *)

Lemma runSchedule_app env a b s :
  runSchedule env (a ++ b) s = runSchedule env b (runSchedule env a s).
Proof. revert s. induction a as [|i a IH]; intros s; [done|]. apply IH. Qed.

Lemma runSchedule_cons env i sched s :
  runSchedule env (i :: sched) s =
  runSchedule env sched (default s (stepThread env i s)).
Proof. reflexivity. Qed.

Ltac sched_step :=
  rewrite runSchedule_cons; unfold stepThread at 1;
  cbn [world threads holder];
  rewrite ?list_lookup_insert_eq by (rewrite ?length_insert; done).

Lemma solo_spkez env : Solo env GSpkez.
Proof.
  intros s i k Hi Hfree. cbn [getter]. unfold getSpkez, OnceValues.
  pose proof (lookup_lt_Some _ _ _ Hi) as Hlt.
  destruct (onceCell GSpkez (world s)) as [r|] eqn:Hc.
  - exists 1. eexists. split.
    { cbn [replicate]. sched_step. rewrite Hi, Hc. cbn [runSchedule]. reflexivity. }
    by cbn [from_option id world threads holder].
  - exists 3. eexists. split.
    { cbn [replicate]. sched_step. rewrite Hi, Hc. cbn [from_option id].
      sched_step. rewrite (Hfree GSpkez) by done. cbn [from_option id].
      sched_step. rewrite Hc. cbv zeta. cbn [dep].
      rewrite (surjective_pairing (spkezSetup env _)). cbn [from_option id runSchedule].
      reflexivity. }
    cbn [from_option id world threads holder]. unfold bind, ret. cbn [log snd fst].
    destruct (spkezSetup env _) as [r w2]. cbn [snd fst].
    rewrite !list_insert_insert_eq.
    split; [done|]. split; [done|].
    intros g'. unfold setHolder. case_bool_decide; [|done].
    subst g'. by rewrite Hfree.
Qed.

Lemma solo_k8s env : Solo env GK8s.
Proof.
  intros s i k Hi Hfree. cbn [getter]. unfold getK8s, OnceValues.
  pose proof (lookup_lt_Some _ _ _ Hi) as Hlt.
  destruct (onceCell GK8s (world s)) as [r|] eqn:Hc.
  - exists 1. eexists. split.
    { cbn [replicate]. sched_step. rewrite Hi, Hc.
      cbn [from_option id runSchedule]. reflexivity. }
    by cbn [from_option id world threads holder].
  - assert (H3 : runSchedule env (replicate 3 i) s =
                 mkSys (snd (log (EvOnce GK8s) (world s)))
                       (setHolder GK8s (Some i) (holder s))
                       (<[i := (None, ACall GSpkez :: AWait GK8s :: k)]>
                          (threads s))).
    { cbn [replicate]. sched_step. rewrite Hi, Hc. cbn [from_option id].
      sched_step. rewrite (Hfree GK8s) by done. cbn [from_option id].
      sched_step. rewrite Hc. cbv zeta. cbn [dep from_option id runSchedule].
      by rewrite !list_insert_insert_eq. }
    set (s3 := mkSys _ _ _) in H3.
    assert (Hlook : threads s3 !! i
                    = Some (None, ACall GSpkez :: AWait GK8s :: k))
      by (by apply list_lookup_insert_eq).
    assert (Hfree3 : forall g', rank g' <= rank GSpkez -> holder s3 g' = None).
    { intros g' Hg'. cbn [holder s3]. rewrite setHolder_ne; [apply Hfree|].
      - destruct g'; cbn in *; lia.
      - by destruct g'; cbn in Hg'; try lia. }
    destruct (solo_spkez env s3 i _ Hlook Hfree3) as (n&s4&H4&Hw4&Hth4&Hh4).
    subst s3.
    cbn [world threads holder getter] in Hw4, Hth4, Hh4.
    rewrite list_insert_insert_eq in Hth4.
    assert (Hl4 : threads s4 !! i
                  = Some (Some (fst (getSpkez env
                                       (snd (log (EvOnce GK8s) (world s))))),
                          AWait GK8s :: k))
      by (rewrite Hth4; by apply list_lookup_insert_eq).
    exists (3 + (n + 1)). eexists. split.
    { rewrite !replicate_add, !runSchedule_app, H3, H4.
      cbn [replicate]. sched_step. rewrite Hl4.
      rewrite (surjective_pairing (k8sSetup env _ _)).
      cbn [from_option id runSchedule]. reflexivity. }
    cbn [world threads holder]. rewrite Hth4, Hw4.
    rewrite list_insert_insert_eq.
    unfold bind, ret. cbn [log snd fst].
    rewrite (k8sSetup_bind env (getSpkez env)).
    destruct (getSpkez env _) as [r1 w1]. cbn [fst snd].
    destruct (k8sSetup env _ w1) as [r2 w2]. cbn [fst snd].
    split; [done|]. split; [done|].
    intros g'. unfold setHolder at 1. rewrite Hh4.
    case_bool_decide as E.
    + subst g'. by rewrite Hfree.
    + by rewrite setHolder_ne.
Qed.

Lemma solo_ctl env : Solo env GCtl.
Proof.
  intros s i k Hi Hfree. cbn [getter]. unfold getCtl, OnceValues.
  pose proof (lookup_lt_Some _ _ _ Hi) as Hlt.
  destruct (onceCell GCtl (world s)) as [r|] eqn:Hc.
  - exists 1. eexists. split.
    { cbn [replicate]. sched_step. rewrite Hi, Hc.
      cbn [from_option id runSchedule]. reflexivity. }
    by cbn [from_option id world threads holder].
  - assert (H3 : runSchedule env (replicate 3 i) s =
                 mkSys (snd (log (EvOnce GCtl) (world s)))
                       (setHolder GCtl (Some i) (holder s))
                       (<[i := (None, ACall GK8s :: AWait GCtl :: k)]>
                          (threads s))).
    { cbn [replicate]. sched_step. rewrite Hi, Hc. cbn [from_option id].
      sched_step. rewrite (Hfree GCtl) by done. cbn [from_option id].
      sched_step. rewrite Hc. cbv zeta. cbn [dep from_option id runSchedule].
      by rewrite !list_insert_insert_eq. }
    set (s3 := mkSys _ _ _) in H3.
    assert (Hlook : threads s3 !! i
                    = Some (None, ACall GK8s :: AWait GCtl :: k))
      by (by apply list_lookup_insert_eq).
    assert (Hfree3 : forall g', rank g' <= rank GK8s -> holder s3 g' = None).
    { intros g' Hg'. cbn [holder s3]. rewrite setHolder_ne; [apply Hfree|].
      - destruct g'; cbn in *; lia.
      - by destruct g'; cbn in Hg'; try lia. }
    destruct (solo_k8s env s3 i _ Hlook Hfree3) as (n&s4&H4&Hw4&Hth4&Hh4).
    subst s3.
    cbn [world threads holder getter] in Hw4, Hth4, Hh4.
    rewrite list_insert_insert_eq in Hth4.
    assert (Hl4 : threads s4 !! i
                  = Some (Some (fst (getK8s env
                                       (snd (log (EvOnce GCtl) (world s))))),
                          AWait GCtl :: k))
      by (rewrite Hth4; by apply list_lookup_insert_eq).
    exists (3 + (n + 1)). eexists. split.
    { rewrite !replicate_add, !runSchedule_app, H3, H4.
      cbn [replicate]. sched_step. rewrite Hl4.
      rewrite (surjective_pairing (ctlSetup _ _)).
      cbn [from_option id runSchedule]. reflexivity. }
    cbn [world threads holder]. rewrite Hth4, Hw4.
    rewrite list_insert_insert_eq.
    unfold bind, ret. cbn [log snd fst].
    rewrite (ctlSetup_bind (getK8s env)).
    destruct (getK8s env _) as [r1 w1]. cbn [fst snd].
    destruct (ctlSetup _ w1) as [r2 w2]. cbn [fst snd].
    split; [done|]. split; [done|].
    intros g'. unfold setHolder at 1. rewrite Hh4.
    case_bool_decide as E.
    + subst g'. by rewrite Hfree.
    + by rewrite setHolder_ne.
Qed.

(** A thread that runs alone does what the getter does: the steps of the
    thread model, taken without interleaving, end in the world and with the
    value of the memoized function. *)
Lemma solo_getter env g w :
  exists n,
    let s := runSchedule env (replicate n 0) (initSys [g] w) in
    world s = snd (getter env g w) /\
    returned s 0 = Some (fst (getter env g w)).
Proof.
  assert (HS : Solo env g).
  { destruct g; [apply solo_spkez|apply solo_k8s|apply solo_ctl]. }
  destruct (HS (initSys [g] w) 0 [] eq_refl (fun _ _ => eq_refl))
    as (n&s'&Hrun&Hw&Hth&_).
  exists n. cbv zeta. rewrite Hrun. split; [done|].
  unfold returned. by rewrite Hth.
Qed.

(** * Further properties of the program *)

(** ** The memoized machines *)

(** A getter called again returns what it returned before and changes
    nothing: not the log, not the deferred closures, not a memo cell. *)
Theorem getter_again env g w :
  let r := getter env g w in
  getter env g (snd r) = r.
Proof.
  cbv zeta. destruct (getter env g w) as [r w'] eqn:Hrun. cbn [snd].
  apply getter_grows in Hrun as [_ Hcell].
  destruct g; cbn [getter]; unfold getSpkez, getK8s, getCtl, OnceValues;
    by rewrite Hcell.
Qed.

Lemma spkezSetup_deferred env w : deferred (snd (spkezSetup env w)) = deferred w.
Proof. unfold spkezSetup. unfold_m. simpl. by break_env. Qed.

(** A failure of [getSpkez] is the failure of [getK8s] and of [getCtl]:
    the error is handed up as it is and cached at each level, and neither
    the SSH key is asked for nor a key file created or registered for
    removal. *)
Theorem getCtl_hands_up_failure env w r w' e :
  onceCell GK8s w = None ->
  onceCell GCtl w = None ->
  getCtl env w = (r, w') ->
  onceCell GSpkez w' = Some (Err e) ->
  r = Err e /\
  onceCell GK8s w' = Some (Err e) /\
  onceCell GCtl w' = Some (Err e) /\
  deferred w' = deferred w /\
  counts CKeyFetch (events w') = counts CKeyFetch (events w) /\
  counts CTempFile (events w') = counts CTempFile (events w).
Proof.
  intros Hk Hc Hrun He.
  apply OnceValues_cases in Hrun as [[Hc' _]|(_&wc&Hrun&->)]; [congruence|].
  rewrite ctlSetup_bind in Hrun.
  destruct (getK8s env _) as [rk wk] eqn:Hkrun.
  apply OnceValues_cases in Hkrun as [[Hk' _]|(_&wk'&Hkrun&->)].
  { rewrite onceCell_log in Hk'. congruence. }
  rewrite k8sSetup_bind in Hkrun.
  destruct (getSpkez env _) as [rs ws] eqn:Hsrun.
  pose proof Hsrun as Hcell. apply getSpkez_below in Hcell as [_ Hcell].
  assert (Hsame : deferred ws = deferred w /\
                  forall c, c = CKeyFetch \/ c = CTempFile ->
                    counts c (events ws) = counts c (events w)).
  { apply OnceValues_cases in Hsrun as [[_ ->]|(_&ws'&Hsrun&->)].
    - split; [done|]. intros c [-> | ->]; cbn [log snd events];
        rewrite !counts_app; cbn; lia.
    - pose proof (spkezSetup_deferred env
                    (snd (log (EvOnce GSpkez)
                       (snd (log (EvOnce GK8s)
                          (snd (log (EvOnce GCtl) w))))))) as Hd.
      rewrite Hsrun in Hd. cbn [snd] in Hd.
      apply spkezSetup_own in Hsrun as (_&evs&Hev&Hevs).
      split; [by destruct ws'|].
      intros c Hc'. rewrite events_setOnce, Hev. cbn [log snd events].
      rewrite !counts_app. specialize (Hevs c).
      assert (ownOps GSpkez c = 0) by (by destruct Hc' as [-> | ->]).
      assert (counts c [EvOnce GCtl] = 0 /\ counts c [EvOnce GK8s] = 0 /\
              counts c [EvOnce GSpkez] = 0) as (->&->&->)
        by (by destruct Hc' as [-> | ->]).
      lia. }
  destruct Hsame as [Hdef Hcounts].
  destruct rs as [spkez|e'].
  - exfalso.
    destruct (k8sSetup env _ ws) as [rk' wk''] eqn:Hk2.
    injection Hkrun as <- <-.
    apply k8sSetup_own in Hk2 as [Hcells _].
    destruct (ctlSetup _ _) as [rc wc'] eqn:Hc2.
    injection Hrun as <- <-.
    apply ctlSetup_own in Hc2 as [Hcells' _].
    rewrite onceCell_setOnce, bool_decide_eq_false_2 in He by done.
    rewrite Hcells', onceCell_setOnce, bool_decide_eq_false_2 in He by done.
    rewrite Hcells in He. congruence.
  - unfold k8sSetup, bind, ret in Hkrun. injection Hkrun as <- <-.
    unfold ctlSetup, bind, ret in Hrun. injection Hrun as <- <-.
    rewrite !onceCell_setOnce in He. cbn in He.
    cbn [onceCell] in Hcell. rewrite Hcell in He. injection He as ->.
    cbn [setOnce snd onceCell k8sOnce ctlOnce deferred events].
    rewrite Hdef, !Hcounts by auto. done.
Qed.

Lemma getCtl_hands_up_failure_witness :
  let e := Errorf "error checking spkez" (ErrIO "permission denied") in
  let r := getCtl brokenSpkezEnv initWorld in
  fst r = Err e /\
  onceCell GK8s (snd r) = Some (Err e) /\
  onceCell GCtl (snd r) = Some (Err e) /\
  deferred (snd r) = [] /\
  counts CKeyFetch (events (snd r)) = 0 /\
  counts CTempFile (events (snd r)) = 0.
Proof.
  intros e r.
  assert (Hs : onceCell GSpkez (snd r) = Some (Err e))
    by (vm_compute; reflexivity).
  subst r. destruct (getCtl brokenSpkezEnv initWorld) as [r W] eqn:Hrun.
  cbn [fst snd] in *.
  exact (getCtl_hands_up_failure brokenSpkezEnv initWorld r W e
           eq_refl eq_refl Hrun Hs).
Defined.

Lemma k8sSetup_success env spkez w k8s w' :
  k8sSetup env (ret (Ok spkez)) w = (Ok k8s, w') ->
  exists raw file o1 o2 o3,
    let t := Trace w in
    w' = mkWorld
           (events w ++
            [EvOp (OpInvoke spkez ["get"; "infra/ssh"] "") t (Ok raw);
             EvOp (OpCreateTemp "" "sshkey") t (Ok file);
             EvOp (OpChmod file (oct 6 0 0)) t (Ok o1);
             EvOp (OpWriteString file (trimNewline raw +:+ String newline ""))
                  t (Ok o2);
             EvOp (OpClose file) t o3])
           (Trace w) (files w) (RemoveFile file :: deferred w)
           (spkezOnce w) (k8sOnce w) (ctlOnce w) (globals w) /\
    k8s = Shell (Sub (Shell sysMachine ["ssh"])
                     ["ssh"; "-i"; file; host; "--"])
                ["sh"; "curl"; "kubectl"].
Proof.
  unfold k8sSetup. unfold_m. simpl.
  break_env; intros [= <- <-].
  eexists _, _, _, _, _. cbv zeta. split; [|reflexivity].
  by rewrite <- !app_assoc.
Qed.

Lemma getSpkez_deferred env w : deferred (snd (getSpkez env w)) = deferred w.
Proof.
  destruct (getSpkez env w) as [r w'] eqn:Hrun. cbn [snd].
  apply OnceValues_cases in Hrun as [[_ ->]|(_&w1&Hrun&->)]; [done|].
  pose proof (spkezSetup_deferred env (snd (log (EvOnce GSpkez) w))) as Hd.
  rewrite Hrun in Hd. by destruct w1.
Qed.

Lemma getK8s_first env w k8s w' :
  onceCell GK8s w = None ->
  getK8s env w = (Ok k8s, w') ->
  exists spkez pre raw file o1 o2 o3,
    let t := Trace w in
    onceCell GSpkez w' = Some (Ok spkez) /\
    events w' =
      (pre ++
       [EvOp (OpInvoke spkez ["get"; "infra/ssh"] "") t (Ok raw);
        EvOp (OpCreateTemp "" "sshkey") t (Ok file);
        EvOp (OpChmod file (oct 6 0 0)) t (Ok o1);
        EvOp (OpWriteString file (trimNewline raw +:+ String newline ""))
             t (Ok o2);
        EvOp (OpClose file) t o3])%list /\
    deferred w' = RemoveFile file :: deferred w /\
    k8s = Shell (Sub (Shell sysMachine ["ssh"])
                     ["ssh"; "-i"; file; host; "--"])
                ["sh"; "curl"; "kubectl"].
Proof.
  intros Hk Hrun.
  apply OnceValues_cases in Hrun as [[Hk' _]|(_&w1&Hrun&->)]; [congruence|].
  rewrite k8sSetup_bind in Hrun.
  pose proof (getSpkez_deferred env (snd (log (EvOnce GK8s) w))) as Hd.
  destruct (getSpkez env _) as [rs ws] eqn:Hs. cbn [snd] in Hd.
  pose proof Hs as Hcell. apply getSpkez_below in Hcell as [_ Hcell].
  apply getSpkez_frame in Hs as (Ht&_).
  destruct rs as [spkez|e]; [|by unfold k8sSetup, bind, ret in Hrun].
  apply k8sSetup_success in Hrun as (raw&file&o1&o2&o3&->&->).
  exists spkez, (events ws), raw, file, o1, o2, o3. cbv zeta.
  rewrite Ht. cbn [log snd Trace]. by rewrite Hd.
Qed.

(** The first successful [getK8s]: the last operations in the log are the
    retrieval of the SSH key from the cached secrets machine, the creation
    of the temporary file, the change of its mode to 0600, the write of the
    key followed by a newline and the closing of the file, in this order;
    the removal of the file is the one closure registered; the machine runs
    [ssh] with that file as identity. *)
Theorem getK8s_key_file env w k8s w' :
  onceCell GK8s w = None ->
  getK8s env w = (Ok k8s, w') ->
  exists spkez pre raw file o1 o2 o3,
    let t := Trace w in
    onceCell GSpkez w' = Some (Ok spkez) /\
    events w' =
      (pre ++
       [EvOp (OpInvoke spkez ["get"; "infra/ssh"] "") t (Ok raw);
        EvOp (OpCreateTemp "" "sshkey") t (Ok file);
        EvOp (OpChmod file (oct 6 0 0)) t (Ok o1);
        EvOp (OpWriteString file (trimNewline raw +:+ String newline ""))
             t (Ok o2);
        EvOp (OpClose file) t o3])%list /\
    deferred w' = RemoveFile file :: deferred w /\
    k8s = Shell (Sub (Shell sysMachine ["ssh"])
                     ["ssh"; "-i"; file; host; "--"])
                ["sh"; "curl"; "kubectl"].
Proof. apply getK8s_first. Qed.

Lemma getK8s_key_file_witness :
  let r := getK8s okEnv initWorld in
  exists spkez pre raw file o1 o2 o3,
    let t := Discard in
    onceCell GSpkez (snd r) = Some (Ok spkez) /\
    events (snd r) =
      (pre ++
       [EvOp (OpInvoke spkez ["get"; "infra/ssh"] "") t (Ok raw);
        EvOp (OpCreateTemp "" "sshkey") t (Ok file);
        EvOp (OpChmod file (oct 6 0 0)) t (Ok o1);
        EvOp (OpWriteString file (trimNewline raw +:+ String newline ""))
             t (Ok o2);
        EvOp (OpClose file) t o3])%list /\
    deferred (snd r) = [RemoveFile file] /\
    fst r = Ok (Shell (Sub (Shell sysMachine ["ssh"])
                           ["ssh"; "-i"; file; host; "--"])
                      ["sh"; "curl"; "kubectl"]).
Proof.
  intros r.
  assert (Hr : fst r = Ok k8s0) by (vm_compute; reflexivity).
  subst r. destruct (getK8s okEnv initWorld) as [r W] eqn:Hrun.
  cbn [fst snd] in *. subst r.
  destruct (getK8s_key_file okEnv initWorld k8s0 W eq_refl Hrun)
    as (spkez&pre&raw&file&o1&o2&o3&H1&H2&H3&H4).
  exists spkez, pre, raw, file, o1, o2, o3. cbv zeta.
  split; [exact H1|]. split; [exact H2|]. split; [exact H3|].
  by rewrite H4.
Defined.

(** Whatever fails after the temporary key file was created (the change of
    mode, the write), the function of [getK8s] has registered the removal
    of the file and closes it as its last operation; when no file was
    created nothing is registered. *)
Theorem k8sSetup_cleans_up env spkez w :
  let w' := snd (k8sSetup env (ret (Ok spkez)) w) in
  forall evs : list Event,
    events w' = (events w ++ evs)%list ->
    (forall file tr,
       EvOp (OpCreateTemp "" "sshkey") tr (Ok file) ∈ evs ->
       deferred w' = RemoveFile file :: deferred w /\
       exists pre o, evs = (pre ++ [EvOp (OpClose file) tr o])%list) /\
    ((forall file tr,
        EvOp (OpCreateTemp "" "sshkey") tr (Ok file) ∉ evs) ->
     deferred w' = deferred w).
Proof.
  cbv zeta. unfold k8sSetup. unfold_m. simpl.
  break_env; cbn [events deferred]; intros evs Hevs;
    rewrite <- ?app_assoc in Hevs; apply app_inv_head in Hevs as <-;
    cbn [app];
    (split;
     [intros file tr Hin;
      repeat (apply elem_of_cons in Hin as [Hin|Hin];
              [try discriminate Hin|]);
      try (by apply elem_of_nil in Hin);
      injection Hin as -> ->; (split; [done|])
     |intros Hnone; try done;
      exfalso; eapply Hnone;
      apply elem_of_cons; right; apply elem_of_cons; by left]).
  - eexists [_; _; _; _], _; reflexivity.
  - eexists [_; _; _; _], _; reflexivity.
  - eexists [_; _; _], _; reflexivity.
Qed.

Lemma k8sSetup_cleans_up_witness :
  let w' := snd (k8sSetup okEnv (ret (Ok spkez0)) initWorld) in
  (forall file tr,
     EvOp (OpCreateTemp "" "sshkey") tr (Ok file) ∈ events w' ->
     deferred w' = [RemoveFile file] /\
     exists pre o, events w' = (pre ++ [EvOp (OpClose file) tr o])%list) /\
  ((forall file tr,
      EvOp (OpCreateTemp "" "sshkey") tr (Ok file) ∉ events w') ->
   deferred w' = []).
Proof.
  intros w'.
  pose proof (k8sSetup_cleans_up okEnv spkez0 initWorld (events w') eq_refl)
    as H.
  exact H.
Defined.

(** The machine of a first successful [getCtl] is the cached machine of
    [getK8s] behind the prefix [kubectl]: what it is asked to run reaches
    the local system as [ssh -i <key file> k8s.lesiw.dev -- kubectl ...],
    the key file being the one whose removal was registered. *)
Theorem getCtl_delegates env w ctl w' :
  onceCell GK8s w = None ->
  onceCell GCtl w = None ->
  getCtl env w = (Ok ctl, w') ->
  exists k8s file,
    onceCell GK8s w' = Some (Ok k8s) /\
    ctl = Sub k8s ["kubectl"] /\
    deferred w' = RemoveFile file :: deferred w /\
    forall args,
      delegated ctl args =
      ("sys", ["ssh"; "-i"; file; host; "--"; "kubectl"] ++ args)%list.
Proof.
  intros Hk Hc Hrun.
  apply OnceValues_cases in Hrun as [[Hc' _]|(_&w1&Hrun&->)]; [congruence|].
  rewrite ctlSetup_bind in Hrun.
  destruct (getK8s env _) as [rk wk] eqn:Hkrun.
  destruct rk as [k8s|e]; [|by unfold ctlSetup, bind, ret in Hrun].
  unfold ctlSetup, bind, ret in Hrun. injection Hrun as <- <-.
  pose proof Hkrun as Hcell. apply getK8s_below in Hcell as [_ Hcell].
  apply getK8s_first in Hkrun
    as (spkez&pre&raw&file&o1&o2&o3&_&_&Hd&->); [|by rewrite onceCell_log].
  exists (Shell (Sub (Shell sysMachine ["ssh"])
                     ["ssh"; "-i"; file; host; "--"])
                ["sh"; "curl"; "kubectl"]), file.
  rewrite onceCell_setOnce, bool_decide_eq_false_2 by done.
  split; [done|]. split; [done|]. split; [by destruct wk|done].
Qed.

Lemma getCtl_delegates_witness :
  let r := getCtl okEnv initWorld in
  exists k8s file,
    onceCell GK8s (snd r) = Some (Ok k8s) /\
    fst r = Ok (Sub k8s ["kubectl"]) /\
    deferred (snd r) = [RemoveFile file] /\
    forall args,
      delegated ctl0 args =
      ("sys", ["ssh"; "-i"; file; host; "--"; "kubectl"] ++ args)%list.
Proof.
  intros r.
  assert (Hr : fst r = Ok ctl0) by (vm_compute; reflexivity).
  subst r. destruct (getCtl okEnv initWorld) as [r W] eqn:Hrun.
  cbn [fst snd] in *. subst r.
  destruct (getCtl_delegates okEnv initWorld ctl0 W eq_refl eq_refl Hrun)
    as (k8s&file&H1&H2&H3&H4).
  exists k8s, file. split; [exact H1|]. split; [by rewrite H2|].
  split; [exact H3|exact H4].
Defined.

(** ** The provisioning steps *)

(** [setupPostgres] installs CloudNativePG before the cluster: the cluster
    manifest is applied only after the server-side apply of the CNPG
    release was accepted, each failure is wrapped in the message of its
    stage, and nothing else is done on the way. *)
Theorem setupPostgres_order env cfg ctx w ctl w1 :
  getCtl env w = (Ok ctl, w1) ->
  let t := Trace w in
  let installOp :=
    OpInvoke ctl
      ["apply"; "--server-side"; "--force-conflicts"; "-f"; cnpgURL] "" in
  let installed := env (events w1) installOp in
  let install := EvOp installOp t installed in
  let clusterOp :=
    OpInvoke ctl ["apply"; "-f"; "-"] (postgresClusterCfg cfg) in
  let applied := env (events w1 ++ [install])%list clusterOp in
  let cluster := EvOp clusterOp t applied in
  setupPostgres env cfg ctx w =
    match installed with
    | Err e => (Some (Errorf "could not install CNPG" e), logged [install] w1)
    | Ok _ =>
        (match applied with
         | Err e => Some (Errorf "could not install PG cluster" e)
         | Ok _ => None
         end, logged [install; cluster] w1)
    end.
Proof.
  intros Hctl t installOp installed install clusterOp applied cluster.
  unfold setupPostgres. unfold bind at 1. rewrite Hctl.
  apply getCtl_frame in Hctl as (Ht&_).
  subst cluster applied clusterOp install installed installOp t.
  unfold_m. cbv beta iota zeta.
  cbn [events Trace files deferred spkezOnce k8sOnce ctlOnce globals snd fst
       cmd_on cmd_args].
  rewrite Ht.
  destruct (env (events w1) _) as [o|e];
    cbn [events Trace files deferred spkezOnce k8sOnce ctlOnce globals
         snd fst]; [|unfold logged; by rewrite Ht].
  destruct (env _ _) as [o'|e'];
    cbn [events Trace files deferred spkezOnce k8sOnce ctlOnce globals
         snd fst]; unfold logged; by rewrite Ht, <- ?app_assoc.
Qed.

Lemma setupPostgres_order_witness :
  let w1 := snd (getCtl okEnv verboseWorld) in
  let install :=
    EvOp (OpInvoke ctl0
            ["apply"; "--server-side"; "--force-conflicts"; "-f"; cnpgURL] "")
         ShTrace (Ok "") in
  let cluster :=
    EvOp (OpInvoke ctl0 ["apply"; "-f"; "-"] (postgresClusterCfg cfg0))
         ShTrace (Ok "") in
  setupPostgres okEnv cfg0 Background verboseWorld
  = (None, logged [install; cluster] w1).
Proof.
  intros w1 install cluster.
  assert (Hr : fst (getCtl okEnv verboseWorld) = Ok ctl0)
    by (vm_compute; reflexivity).
  subst w1. destruct (getCtl okEnv verboseWorld) as [r W1] eqn:Hctl.
  cbn [fst snd] in *. subst r.
  exact (setupPostgres_order okEnv cfg0 Background verboseWorld ctl0 W1 Hctl).
Defined.

(** [setupCertManager] asks for the Cloudflare token only after the
    cert-manager release was applied: when that apply fails the secrets
    machine is not invoked, no manifest is piped, and the error is the one
    of the apply wrapped in its message. *)
Theorem setupCertManager_install_first env cfg ctx w ctl spkez w1 w2 e :
  getCtl env w = (Ok ctl, w1) ->
  getSpkez env w1 = (Ok spkez, w2) ->
  env (events w2) (OpInvoke ctl ["apply"; "-f"; certManagerURL] "") = Err e ->
  setupCertManager env cfg ctx w =
    (Some (Errorf "could not install cert-manager" e),
     logged [EvOp (OpInvoke ctl ["apply"; "-f"; certManagerURL] "")
                  (Trace w) (Err e)] w2).
Proof.
  intros Hctl Hspkez Hfail.
  unfold setupCertManager. unfold bind at 1. rewrite Hctl.
  unfold bind at 1. rewrite Hspkez.
  apply getCtl_frame in Hctl as (Ht1&_).
  apply getSpkez_frame in Hspkez as (Ht2&_).
  unfold_m. cbv beta iota zeta. rewrite Hfail.
  cbn [events Trace files deferred spkezOnce k8sOnce ctlOnce globals snd fst].
  unfold logged. by rewrite Ht2, Ht1.
Qed.

Lemma setupCertManager_install_first_witness :
  let env := certManagerDownEnv in
  let w2 := snd (getSpkez env (snd (getCtl env verboseWorld))) in
  setupCertManager env cfg0 Background verboseWorld =
    (Some (Errorf "could not install cert-manager" (ErrExit 1)),
     logged [EvOp (OpInvoke ctl0 ["apply"; "-f"; certManagerURL] "")
                  ShTrace (Err (ErrExit 1))] w2).
Proof.
  intros env w2.
  assert (Hr1 : fst (getCtl env verboseWorld) = Ok ctl0)
    by (vm_compute; reflexivity).
  assert (Hr2 : fst (getSpkez env (snd (getCtl env verboseWorld)))
                = Ok spkez0) by (vm_compute; reflexivity).
  subst w2.
  destruct (getCtl env verboseWorld) as [r1 W1] eqn:Hctl.
  cbn [fst snd] in Hr1, Hr2 |- *. subst r1.
  destruct (getSpkez env W1) as [r2 W2] eqn:Hspkez.
  cbn [fst snd] in Hr2 |- *. subst r2.
  exact (setupCertManager_install_first env cfg0 Background verboseWorld
           ctl0 spkez0 W1 W2 (ErrExit 1) Hctl Hspkez eq_refl).
Defined.

(** [installAutopatch] writes the script before the cron entry and the
    cron entry before the log file, and stops at the first write that
    fails: a cron entry it has written comes with the executable script,
    a log file it has written comes with the cron entry, and no other
    remote file is touched. *)
Theorem installAutopatch_script_first env ctx w k8s w1 :
  getK8s env w = (Ok k8s, w1) ->
  let w' := snd (installAutopatch env ctx w) in
  let script := (k8s, "/usr/local/bin/autopatch") in
  let cron := (k8s, "/etc/cron.d/autopatch") in
  let logfile := (k8s, "/var/log/autopatch.log") in
  (files w' !! cron = files w !! cron \/
   files w' !! script = Some (mkFile autopatch (oct 7 5 5))) /\
  (files w' !! logfile = files w !! logfile \/
   files w' !! cron = Some (mkFile autopatchCron (default defaultMode ctx))) /\
  (forall key, key <> script -> key <> cron -> key <> logfile ->
     files w' !! key = files w !! key).
Proof.
  intros Hk8s. cbv zeta. unfold installAutopatch. unfold_m. rewrite Hk8s.
  apply getK8s_frame in Hk8s as (_&Hf&_).
  cbv beta iota zeta.
  cbn [events Trace files deferred spkezOnce k8sOnce ctlOnce globals snd fst
       WithFileMode].
  break_env;
    cbn [events Trace files deferred spkezOnce k8sOnce ctlOnce globals
         snd fst];
    rewrite Hf; repeat split; auto;
    try (intros key H1 H2 H3; by rewrite ?lookup_insert_ne by done);
    first [ left; by rewrite ?lookup_insert_ne by done
          | right; rewrite ?lookup_insert_ne by done;
            by rewrite lookup_insert_eq ].
Qed.

Lemma installAutopatch_script_first_witness :
  let w' := snd (installAutopatch okEnv Background initWorld) in
  let script := (k8s0, "/usr/local/bin/autopatch") in
  let cron := (k8s0, "/etc/cron.d/autopatch") in
  let logfile := (k8s0, "/var/log/autopatch.log") in
  (files w' !! cron = files initWorld !! cron \/
   files w' !! script = Some (mkFile autopatch (oct 7 5 5))) /\
  (files w' !! logfile = files initWorld !! logfile \/
   files w' !! cron = Some (mkFile autopatchCron defaultMode)) /\
  (forall key, key <> script -> key <> cron -> key <> logfile ->
     files w' !! key = files initWorld !! key).
Proof.
  assert (Hr : fst (getK8s okEnv initWorld) = Ok k8s0)
    by (vm_compute; reflexivity).
  pose proof (installAutopatch_script_first okEnv Background initWorld k8s0
                (snd (getK8s okEnv initWorld))) as H.
  destruct (getK8s okEnv initWorld) as [r W1].
  cbn [fst snd] in *. subst r. exact (H eq_refl).
Defined.

(** ** Temporary files and the trace setting over the whole run *)























(** A run that passes and a run that fails at the second step: the key
    file is created once and removed before [main] returns. *)
Example key_file_removed :
  let w' := snd (main okEnv cfg0 false initWorld) in
  createdFiles (events w') = ["/tmp/sshkey0001"] /\
  removedFiles (events w') = ["/tmp/sshkey0001"].
Proof. vm_compute. done. Qed.

Example key_file_removed_on_failure :
  let r := main curlFailsEnv cfg0 false initWorld in
  fst r = 1%N /\
  createdFiles (events (snd r)) = ["/tmp/sshkey0001"] /\
  removedFiles (events (snd r)) = ["/tmp/sshkey0001"].
Proof. vm_compute. done. Qed.

(** ** The first generation of the bootstrap *)

(** The first bootstrap, when it succeeds: the package variables hold the
    local runner, the name of the key file, the runner that reaches the
    host through [ssh] with that key and the runner of [kubectl] behind
    it; the removal of the key file is registered.  What [ctl] is asked to
    run reaches the local system as
    [ssh -i <key file> 188.245.162.205 -- kubectl ...]. *)
Theorem runinit_globals env w w' :
  Legacy.runinit env w = (None, w') ->
  exists file,
    let remote :=
      Sub sysMachine ["ssh"; "-i"; file; Legacy.host; "--"] in
    globals w' =
      mkGlobals (Some sysMachine) file (Some remote)
                (Some (Sub remote ["kubectl"])) /\
    deferred w' = RemoveFile file :: deferred w /\
    forall args,
      delegated (Sub remote ["kubectl"]) args =
      ("sys", ["ssh"; "-i"; file; Legacy.host; "--"; "kubectl"] ++ args)%list.
Proof.
  unfold Legacy.runinit, Legacy.fetchKey, Legacy.Get, Legacy.Run,
    Legacy.WithRunner.
  unfold_m. simpl.
  break_env; intros [= <-]; eexists; cbv zeta; repeat split.
Qed.

(** ... and when it fails: the runners [k8s] and [ctl] and the name of the
    key file are what they were, so that no half-built runner is left. *)
Theorem runinit_failure env w e w' :
  Legacy.runinit env w = (Some e, w') ->
  k8s (globals w') = k8s (globals w) /\
  ctl (globals w') = ctl (globals w) /\
  sshkey (globals w') = sshkey (globals w).
Proof.
  unfold Legacy.runinit, Legacy.fetchKey, Legacy.Get, Legacy.Run,
    Legacy.WithRunner.
  unfold_m. simpl.
  break_env; intros [= <- <-]; repeat split.
Qed.

Lemma runinit_globals_witness :
  exists file,
    let remote :=
      Sub sysMachine ["ssh"; "-i"; file; Legacy.host; "--"] in
    globals (snd (Legacy.runinit okEnv initWorld)) =
      mkGlobals (Some sysMachine) file (Some remote)
                (Some (Sub remote ["kubectl"])) /\
    deferred (snd (Legacy.runinit okEnv initWorld)) = [RemoveFile file] /\
    forall args,
      delegated (Sub remote ["kubectl"]) args =
      ("sys", ["ssh"; "-i"; file; Legacy.host; "--"; "kubectl"] ++ args)%list.
Proof.
  assert (Hr : fst (Legacy.runinit okEnv initWorld) = None)
    by (vm_compute; reflexivity).
  destruct (Legacy.runinit okEnv initWorld) as [r W] eqn:Hrun.
  cbn [fst snd] in *. subst r.
  exact (runinit_globals okEnv initWorld W Hrun).
Defined.

Lemma runinit_failure_witness :
  let w' := snd (Legacy.runinit bootstrapEnv initWorld) in
  k8s (globals w') = None /\ ctl (globals w') = None /\
  sshkey (globals w') = "".
Proof.
  assert (Hr : fst (Legacy.runinit bootstrapEnv initWorld)
               = Some (Errorf "could not find spkez"
                         (ErrIO "connection lost")))
    by (vm_compute; reflexivity).
  destruct (Legacy.runinit bootstrapEnv initWorld) as [r W] eqn:Hrun.
  cbn [fst snd] in *. subst r.
  exact (runinit_failure bootstrapEnv initWorld _ W Hrun).
Defined.

(** ** Concurrent accesses make progress *)









